(* ===================================================================== *)
(*  filewatcher.py: a shallow embedding and its verified properties       *)
(*                                                                       *)
(*  The watcher numbers the lines of a file with `nl -ba`, reads the      *)
(*  lines after a cursor with `tail -n +K`, tests each against a regex    *)
(*  and notifies syslog and/or mail.  Python strings are lists of code    *)
(*  points (here: the code points below 256, Rocq's `ascii`); Python      *)
(*  ints are Z; exceptions are values of [Exn]; the collaborators         *)
(*  (logger, SMTP transport, inotify, file system) are explicit state     *)
(*  and oracles.                                                          *)
(* ===================================================================== *)

From Stdlib Require String.
From Stdlib Require Import List Ascii ZArith Lia Bool Arith.
From Stdlib Require Import DecimalString DecimalNat.
Import ListNotations String.StringSyntax.

Local Open Scope string_scope.

Local Open Scope list_scope.

(* --------------------------------------------------------------------- *)
(** * Python strings                                                      *)
(* --------------------------------------------------------------------- *)

Module PyStr.

(** A Python [str]: a sequence of code points. *)
Definition str := list ascii.

(** String literals. *)
Definition py (s : String.string) : str := String.list_ascii_of_string s.

Definition str_eqb (a b : str) : bool :=
  if list_eq_dec ascii_dec a b then true else false.

Definition code (c : ascii) : nat := nat_of_ascii c.

Definition LF : ascii := ascii_of_nat 10.
Definition CR : ascii := ascii_of_nat 13.
Definition TAB : ascii := ascii_of_nat 9.

(** [str.isspace] on one code point: 0x09-0x0D, 0x1C-0x1F, 0x20, 0x85,
    0xA0 are the white-space code points below 256. *)
Definition isspace (c : ascii) : bool :=
  let n := code c in
  ((9 <=? n) && (n <=? 13)) || ((28 <=? n) && (n <=? 32))
  || (n =? 133) || (n =? 160).

(** Line boundaries of [str.splitlines]: \n \v \f \r \x1c \x1d \x1e \x85. *)
Definition islinebreak (c : ascii) : bool :=
  let n := code c in
  ((10 <=? n) && (n <=? 13)) || ((28 <=? n) && (n <=? 30)) || (n =? 133).

Definition isdigit (c : ascii) : bool :=
  let n := code c in (48 <=? n) && (n <=? 57).

Fixpoint dropwhile (p : ascii -> bool) (s : str) : str :=
  match s with
  | [] => []
  | c :: s' => if p c then dropwhile p s' else s
  end.

Fixpoint takewhile (p : ascii -> bool) (s : str) : str :=
  match s with
  | [] => []
  | c :: s' => if p c then c :: takewhile p s' else []
  end.

(** [s.lstrip()], [s.rstrip()], [s.strip()] with no argument. *)
Definition lstrip (s : str) : str := dropwhile isspace s.

Fixpoint rstrip (s : str) : str :=
  match s with
  | [] => []
  | c :: s' =>
      match rstrip s' with
      | [] => if isspace c then [] else [c]
      | r => c :: r
      end
  end.

Definition strip (s : str) : str := lstrip (rstrip s).

(** [s.splitlines()]: split at line boundaries, "\r\n" counting as one;
    no empty last element after a final boundary. *)
Fixpoint splitlines (s : str) : list str :=
  match s with
  | [] => []
  | c :: s' =>
      if islinebreak c then
        if Ascii.eqb c CR then
          match s' with
          | d :: s'' => if Ascii.eqb d LF then [] :: splitlines s''
                        else [] :: splitlines s'
          | [] => [[]]
          end
        else [] :: splitlines s'
      else
        match splitlines s' with
        | [] => [[c]]
        | l :: ls => (c :: l) :: ls
        end
  end.

Definition nonspace (c : ascii) : bool := negb (isspace c).

Definition nobreak (c : ascii) : bool := negb (islinebreak c).

(** [s.split()]: the maximal runs of non-white-space characters.  The
    fuel bounds the number of words by the length of the string. *)
Fixpoint split_words (fuel : nat) (s : str) : list str :=
  match fuel with
  | O => []
  | S fuel' =>
      match lstrip s with
      | [] => []
      | c :: s1 => (c :: takewhile nonspace s1)
                   :: split_words fuel' (dropwhile nonspace s1)
      end
  end.

Definition split (s : str) : list str := split_words (S (length s)) s.

(** [s.split(maxsplit=1)]: skip leading white space, take the first word,
    skip the white space after it; what is left, if anything, is the
    second element, trailing white space included. *)
Definition split_maxsplit1 (s : str) : list str :=
  match lstrip s with
  | [] => []
  | c :: s1 =>
      let word := c :: takewhile nonspace s1 in
      match lstrip (dropwhile nonspace s1) with
      | [] => [word]
      | rest => [word; rest]
      end
  end.

(** [sep.join(items)]. *)
Fixpoint join (sep : str) (items : list str) : str :=
  match items with
  | [] => []
  | [x] => x
  | x :: rest => x ++ sep ++ join sep rest
  end.

(** Decimal rendering of a non-negative integer ('{}'.format(n), %d). *)
Definition dec (n : nat) : str :=
  String.list_ascii_of_string (NilEmpty.string_of_uint (Nat.to_uint n)).

Definition digit_val (c : ascii) : option Z :=
  if isdigit c then Some (Z.of_nat (code c) - 48)%Z else None.

(** The digits of [int(s)]: decimal digits, single underscores allowed
    between two digits. [after_digit] tells whether the previous
    character was a digit. *)
Fixpoint int_digits (acc : Z) (after_digit : bool) (s : str) : option Z :=
  match s with
  | [] => if after_digit then Some acc else None
  | c :: s' =>
      match digit_val c with
      | Some d => int_digits (10 * acc + d)%Z true s'
      | None =>
          if Ascii.eqb c "_"%char && after_digit then int_digits acc false s'
          else None
      end
  end.

(** [int(s)] in base 10; [None] stands for ValueError.  The limit some
    interpreters put on the number of digits is not modelled. *)
Definition int (s : str) : option Z :=
  match strip s with
  | "-"%char :: r => option_map Z.opp (int_digits 0 false r)
  | "+"%char :: r => int_digits 0 false r
  | r => int_digits 0 false r
  end.

End PyStr.
Import PyStr.

(* --------------------------------------------------------------------- *)
(** * Exceptions, the world, and the monad of effects                     *)
(* --------------------------------------------------------------------- *)

(** The Python exceptions the program can meet. *)
Inductive Exn : Type :=
| ValueError
| IndexError
| TypeError
| UnboundLocalError
| FileWatcherException (msg : str)
| re_error
| OSError
| SMTPException.

(** The lines of a text file, each without its final "\n". *)
Definition File := list str.

(** What the collaborators were asked to do. *)
Inductive Event : Type :=
| EvLogger (command : str)
| EvSmtpConnect
| EvSmtpSendmail (from_addr : str) (to_addrs : list str) (message : str)
| EvSmtpClose.

(** The world a watcher runs in: the file system (a path the tools cannot
    read maps to [None]), the effects performed so far, oldest first, and
    the number of SMTP connections currently open. *)
Record World : Type := mkWorld {
  fs : str -> option File;
  events : list Event;
  open_conns : nat
}.

(** How the collaborators behave: running the logger command either
    raises (shlex.split, Popen) or gives an exit status; connecting to the
    mail relay and sending either succeed ([None]) or raise. *)
Record Env : Type := mkEnv {
  run_logger : str -> Exn + Z;
  smtp_connect : option Exn;
  smtp_send : str -> list str -> str -> option Exn
}.

Module Eff.

(** A computation that may change the world and either raises or returns. *)
Definition M (A : Type) : Type := World -> World * (Exn + A).

Definition ret {A} (x : A) : M A := fun w => (w, inr x).

Definition raise {A} (e : Exn) : M A := fun w => (w, inl e).

Definition bind {A B} (c : M A) (k : A -> M B) : M B :=
  fun w =>
    match c w with
    | (w', inl e) => (w', inl e)
    | (w', inr x) => k x w'
    end.

Definition lift {A} (r : Exn + A) : M A := fun w => (w, r).

(** The world after some more effects. *)
Definition add_events (w : World) (evs : list Event) : World :=
  mkWorld (fs w) (events w ++ evs) (open_conns w).

(** [try: body finally: fin]: [fin] always runs; an exception of [fin]
    replaces the outcome of [body]. *)
Definition try_finally {A} (body : M A) (fin : M unit) : M A :=
  fun w =>
    match body w with
    | (w1, r) =>
        match fin w1 with
        | (w2, inl e) => (w2, inl e)
        | (w2, inr _) => (w2, r)
        end
    end.

End Eff.
Import Eff.

Notation "x <- c ;; k" := (bind c (fun x => k))
  (at level 61, c at next level, right associativity).
Notation "c ;;; k" := (bind c (fun _ => k))
  (at level 61, right associativity).

(* --------------------------------------------------------------------- *)
(** * Collaborators: regular expressions, nl | tail, SMTP                 *)
(* --------------------------------------------------------------------- *)

(** A compiled pattern of the [re] module: its source text and its
    matching relation, [match_span s i j] meaning that the pattern
    matches the slice [s[i:j]] of the subject [s]. *)
Record Regex : Type := mkRegex {
  pattern : str;
  match_span : str -> nat -> nat -> bool
}.

Definition spans_from (re : Regex) (s : str) (i : nat) : bool :=
  existsb (fun j => match_span re s i j) (seq i (S (length s) - i)).

(** [regex.search(s)]: a match starting at any position; the match
    object is truthy, [None] is not. *)
Definition search (re : Regex) (s : str) : bool :=
  existsb (spans_from re s) (seq 0 (S (length s))).

(** [regex.match(s)]: a match starting at position 0. *)
Definition re_match (re : Regex) (s : str) : bool := spans_from re s 0.

(** [regex.fullmatch(s)]: a match of the whole subject. *)
Definition fullmatch (re : Regex) (s : str) : bool :=
  match_span re s 0 (length s).

(** The pattern made of the literal text [lit]. *)
Definition literal (lit : str) : Regex :=
  mkRegex lit (fun s i j =>
    (j =? i + length lit) && str_eqb (firstn (j - i) (skipn i s)) lit).

(** The blanks that right-align the number [k] in six columns. *)
Definition pad (k : nat) : str := repeat " "%char (6 - length (dec k)).

(** One output line of [nl -ba]: the number right-aligned in six columns,
    a tab, the line, a newline. *)
Definition nl_line (k : nat) (l : str) : str :=
  pad k ++ dec k ++ [TAB] ++ l ++ [LF].

Fixpoint nl_from (k : nat) (f : File) : list str :=
  match f with
  | [] => []
  | l :: f' => nl_line k l :: nl_from (S k) f'
  end.

(** [nl -ba]: every line numbered from 1.  The logical-page delimiter
    lines of nl are not modelled; see [plain_line]. *)
Definition nl_ba (f : File) : list str := nl_from 1 f.

(** [tail -n +K]: the lines from the K-th on; +0 is +1; a negative count
    is refused and nothing is printed. *)
Definition tail_from (k : Z) (ls : list str) : list str :=
  if (k <? 0)%Z then [] else skipn (Z.to_nat k - 1) ls.

(** A finished child process. *)
Record Completed : Type := mkCompleted {
  returncode : Z;
  stdout : str;
  stderr : str
}.

(** The standard output of `nl -ba file_ | tail -n +k`: nothing when nl
    cannot read the file. *)
Definition numbered_tail (content : option File) (k : Z) : str :=
  match content with
  | None => []
  | Some f => concat (tail_from k (nl_ba f))
  end.

(** Running [tail_cmd(file_=file_, line_no=k)] through the shell, for a
    path that the shell hands to nl as one plain word; the command line
    the source builds from a path with blanks or shell metacharacters is
    not modelled.  The read leaves the world as it is. *)
Definition tail_cmd (file_ : str) (k : Z) : M Completed :=
  fun w =>
    (w, inr (mkCompleted 0 (numbered_tail (fs w file_) k)
               (match fs w file_ with
                | None => py "nl: cannot read"
                | Some _ => []
                end))).

(** smtplib.SMTP('localhost', 25): on success one more connection is
    open; on failure the constructor leaves nothing open. *)
Definition SMTP (env : Env) : M unit :=
  fun w =>
    match smtp_connect env with
    | Some e => (w, inl e)
    | None => (mkWorld (fs w) (events w ++ [EvSmtpConnect]) (S (open_conns w)),
               inr tt)
    end.

Definition sendmail (env : Env) (from_addr : str) (to_addrs : list str)
    (message : str) : M unit :=
  fun w =>
    match smtp_send env from_addr to_addrs message with
    | Some e => (w, inl e)
    | None => (mkWorld (fs w)
                 (events w ++ [EvSmtpSendmail from_addr to_addrs message])
                 (open_conns w), inr tt)
    end.

Definition close : M unit :=
  fun w => (mkWorld (fs w) (events w ++ [EvSmtpClose]) (pred (open_conns w)),
            inr tt).

(* --------------------------------------------------------------------- *)
(** * The program                                                         *)
(* --------------------------------------------------------------------- *)

(** [_run_command]: the exit status, and the decoded and stripped
    standard output and standard error of the child. *)
Definition _run_command (child : M Completed) : M (Z * str * str) :=
  p <- child ;;
  ret (returncode p, strip (stdout p), strip (stderr p)).

(** The child of [log_syslog]: shlex.split and Popen may raise; otherwise
    the logger ran and gave its exit status. *)
Definition logger (env : Env) (command : str) : M Completed :=
  fun w =>
    match run_logger env command with
    | inl e => (w, inl e)
    | inr rc => (mkWorld (fs w) (events w ++ [EvLogger command]) (open_conns w),
                 inr (mkCompleted rc [] []))
    end.

(** The command line of [log_syslog]; the continuation line of the
    source leaves its indentation inside the string. *)
Definition logger_command (message : str) : str :=
  py "/usr/bin/logger --priority local0.info                 filewatcher: "
  ++ message.

Definition log_syslog (env : Env) (message : str) : M bool :=
  let command := logger_command message in
  r <- _run_command (logger env command) ;;
  ret (fst (fst r) =? 0)%Z.

(** The message [send_mail] hands to the transport. *)
Definition mail_message (from_addr : str) (to_addrs : list str)
    (subject body : str) : str :=
  let to_addrs_str := join (py ", ") to_addrs in
  let subject := py "Filewatcher: " ++ subject in
  let body := py "Mail sent by filewatcher." ++ [LF; LF] ++ body ++ [LF] in
  py "From: " ++ from_addr ++ [LF] ++ py "To: " ++ to_addrs_str ++ [LF]
  ++ py "Subject: " ++ subject ++ [LF; LF] ++ body ++ [LF].

(** [send_mail]: joining the addresses raises TypeError when there is no
    list; when the constructor raises, [smtp_client] is unbound and the
    [finally] clause raises UnboundLocalError; otherwise the connection
    is closed whatever [sendmail] does. *)
Definition send_mail (env : Env) (from_addr : str)
    (to_addrs : option (list str)) (subject body : str) : M unit :=
  match to_addrs with
  | None => raise TypeError
  | Some to_addrs =>
      let message := mail_message from_addr to_addrs subject body in
      fun w =>
        match SMTP env w with
        | (w1, inl _) => (w1, inl UnboundLocalError)
        | (w1, inr _) =>
            try_finally (sendmail env from_addr to_addrs message) close w1
        end
  end.

(** Truth value of an optional string or list: [None] and the empty
    value are false. *)
Definition truthy {A} (x : option (list A)) : bool :=
  match x with
  | Some (_ :: _) => true
  | _ => false
  end.

Definition check_input_combo (one two : bool) (exc_msg : str) : Exn + bool :=
  if one then
    if negb two then inl (FileWatcherException exc_msg) else inr true
  else inr true.

(** collections.OrderedDict with string keys: assigning to a key already
    present replaces its value in place, a new key goes last. *)
Definition OrderedDict := list (str * str).

Fixpoint od_set (k v : str) (d : OrderedDict) : OrderedDict :=
  match d with
  | [] => [(k, v)]
  | (k', v') :: d' =>
      if str_eqb k k' then (k, v) :: d' else (k', v') :: od_set k v d'
  end.

(** One turn of the [for line in new_lines] loop. *)
Definition match_line (regex : Regex) (matched_lines : OrderedDict)
    (line : str) : OrderedDict :=
  match split_maxsplit1 line with
  | [line_no; line] =>
      if search regex line then od_set line_no line matched_lines
      else matched_lines
  | _ => matched_lines
  end.

Definition matched_lines (regex : Regex) (new_lines : list str) : OrderedDict :=
  fold_left (match_line regex) new_lines [].

Definition matched_lines_str (d : OrderedDict) : str :=
  join [LF]
    (map (fun kv => py "line_no:" ++ fst kv ++ py "::" ++ snd kv) d).

Definition syslog_message (file_ : str) (d : OrderedDict) : str :=
  py "file: " ++ file_ ++ py ":: " ++ matched_lines_str d.

Definition mail_subject (regex : Regex) (file_ : str) : str :=
  py "Regex pattern " ++ pattern regex ++ py " matched in " ++ file_.

Definition mail_body (regex : Regex) (file_ : str) (d : OrderedDict) : str :=
  py "Regex: " ++ pattern regex ++ [LF] ++ py "File: " ++ file_
  ++ [LF; LF] ++ matched_lines_str d ++ [LF].

Definition base_verifier_sender (env : Env) (new_lines : list str)
    (syslog : bool) (from_addr : option str) (to_addrs : option (list str))
    (regex : Regex) (file_ : str) : M unit :=
  match matched_lines regex new_lines with
  | [] => ret tt
  | d =>
      (if syslog then
         _ <- log_syslog env (syslog_message file_ d) ;;
         ret tt
       else ret tt) ;;;
      (if truthy from_addr then
         send_mail env (match from_addr with Some a => a | None => [] end)
           to_addrs (mail_subject regex file_) (mail_body regex file_ d)
       else ret tt)
  end.

(** The checks of [base_watcher] before its loop. *)
Definition base_watcher_checks (syslog : bool) (from_addr : option str)
    (to_addrs : option (list str)) : Exn + bool :=
  if negb (existsb id [syslog; truthy from_addr; truthy to_addrs]) then
    inl (FileWatcherException
           (py "No syslog or send mail arguments specified"))
  else
    match check_input_combo (truthy from_addr) (truthy to_addrs)
            (py "No mail send to address(es) specified") with
    | inl e => inl e
    | inr _ =>
        check_input_combo (truthy to_addrs) (truthy from_addr)
          (py "No mail from address specified")
    end.

(** The lines read after the cursor:
    [_run_command(tail_cmd_partial(line_no=line_no + 1))[1].splitlines()]. *)
Definition new_lines_ (file_ : str) (line_no : Z) : M (list str) :=
  r <- _run_command (tail_cmd file_ (line_no + 1)) ;;
  ret (splitlines (snd (fst r))).

(** The lines the loop reads at cursor [line_no] from a file with this
    content. *)
Definition diff_lines (content : option File) (line_no : Z) : list str :=
  splitlines (strip (numbered_tail content (line_no + 1))).

(** The number at the head of a diffed line, and the numbers of a batch. *)
Definition line_number (l : str) : option Z :=
  match split l with
  | tok :: _ => int tok
  | [] => None
  end.

Definition line_numbers (ls : list str) : list Z :=
  flat_map (fun l => match line_number l with Some n => [n] | None => [] end) ls.

Definition max_line_number (ls : list str) : Z :=
  fold_right Z.max 0%Z (line_numbers ls).

(** [int(new_lines_[-1].split()[0])], the IndexError of an empty list
    caught and answered with 1; a ValueError of [int] is not caught. *)
Definition set_line_no (new_lines : list str) : Exn + Z :=
  match rev new_lines with
  | [] => inr 1%Z
  | l :: _ =>
      match split l with
      | [] => inr 1%Z
      | tok :: _ =>
          match int tok with
          | Some n => inr n
          | None => inl ValueError
          end
      end
  end.

(** One turn of [while True], given the exit status of the inotifywait
    pipeline; the result is the new [line_no]. *)
Definition watch_cycle (env : Env) (file_ : str) (regex : Regex)
    (syslog : bool) (from_addr : option str) (to_addrs : option (list str))
    (inotify_status : Z) (line_no : Z) : M Z :=
  if (inotify_status =? 0)%Z then
    lines <- new_lines_ file_ line_no ;;
    line_no' <- lift (set_line_no lines) ;;
    base_verifier_sender env lines syslog from_addr to_addrs regex file_ ;;;
    ret line_no'
  else ret line_no.

(** What happens around one turn of the loop: the writes other programs
    made to the file system while the watcher waited, the exit status of
    the inotifywait pipeline, and the behaviour of the sinks. *)
Record Tick : Type := mkTick {
  tick_writes : list (str * option File);
  tick_inotify : Z;
  tick_env : Env
}.

Definition fs_write (fsys : str -> option File) (wr : str * option File)
    : str -> option File :=
  fun p => if str_eqb p (fst wr) then snd wr else fsys p.

Definition apply_writes (ws : list (str * option File)) : M unit :=
  fun w => (mkWorld (fold_left fs_write ws (fs w)) (events w) (open_conns w),
            inr tt).

(** The loop of [base_watcher] along a finite schedule.  An exception
    ends the loop; the end of the schedule returns the cursor reached. *)
Fixpoint watch_loop (file_ : str) (regex : Regex) (syslog : bool)
    (from_addr : option str) (to_addrs : option (list str))
    (ticks : list Tick) (line_no : Z) : M Z :=
  match ticks with
  | [] => ret line_no
  | t :: ticks' =>
      apply_writes (tick_writes t) ;;;
      line_no' <- watch_cycle (tick_env t) file_ regex syslog from_addr
                    to_addrs (tick_inotify t) line_no ;;
      watch_loop file_ regex syslog from_addr to_addrs ticks' line_no'
  end.

Definition base_watcher (file_ : str) (regex : Regex) (syslog : bool)
    (from_addr : option str) (to_addrs : option (list str))
    (ticks : list Tick) : M Z :=
  _ <- lift (base_watcher_checks syslog from_addr to_addrs) ;;
  watch_loop file_ regex syslog from_addr to_addrs ticks 0%Z.

(** str(exc). *)
Definition exn_str (e : Exn) : str :=
  match e with
  | FileWatcherException msg => msg
  | ValueError => py "ValueError"
  | IndexError => py "IndexError"
  | TypeError => py "TypeError"
  | UnboundLocalError => py "UnboundLocalError"
  | re_error => py "re.error"
  | OSError => py "OSError"
  | SMTPException => py "SMTPException"
  end.

Definition mp_error_callback (env : Env) (exc : Exn) : M bool :=
  log_syslog env (py "filewatcher: " ++ exn_str exc).

(** The parsed command line. *)
Record Args : Type := mkArgs {
  arg_regex : str;
  arg_watch_files : list str;
  arg_syslog : bool;
  arg_from_addr : option str;
  arg_to_addrs : option (list str)
}.

(** How [main] ends: it returns the success flag of the map, or it stays
    in [result.wait()] because the workers are in their loops. *)
Inductive MainResult : Type :=
| Returned (success : bool)
| Waiting.

(** [main], up to the moment every worker has either raised in its checks
    or entered its loop.  [compile] is re.compile.  The checks do not
    depend on the file, so the workers all raise or all start; when they
    raise, the map fails, the error callback logs the first exception and
    [main] returns the success flag; a callback that raises kills the
    result handler and leaves [main] waiting. *)
Definition main (compile : str -> Exn + Regex) (env : Env) (args : Args)
    : M MainResult :=
  regex <- lift (compile (arg_regex args)) ;;
  match arg_watch_files args with
  | [] => raise ValueError
  | _ :: _ =>
      match base_watcher_checks (arg_syslog args) (arg_from_addr args)
              (arg_to_addrs args) with
      | inl exc =>
          fun w =>
            match mp_error_callback env exc w with
            | (w', inr _) => (w', inr (Returned false))
            | (w', inl _) => (w', inr Waiting)
            end
      | inr _ => ret Waiting
      end
  end.

(** The exit status of the interpreter after [main()] at top level: 1
    for an uncaught exception, 0 when the script ends, none while it
    waits. *)
Definition exit_status (r : Exn + MainResult) : option Z :=
  match r with
  | inl _ => Some 1%Z
  | inr (Returned _) => Some 0%Z
  | inr Waiting => None
  end.

(* --------------------------------------------------------------------- *)
(** * Notions used in the statements                                      *)
(* --------------------------------------------------------------------- *)

(** The characters of a decimal numeral. *)
Definition uint_chars (d : Decimal.uint) : str :=
  String.list_ascii_of_string (NilEmpty.string_of_uint d).

(** nl starts a new logical page at a line made of one, two or three
    "\:" pairs and numbers from 1 again. *)
Definition nl_delimiter (l : str) : bool :=
  str_eqb l (py "\:") || str_eqb l (py "\:\:") || str_eqb l (py "\:\:\:").

(** A line that reaches the watcher as nl numbered it: it holds no
    character that [splitlines] takes for a line boundary and it is no
    page delimiter of nl. *)
Definition plain_line (l : str) : bool :=
  forallb nobreak l && negb (nl_delimiter l).

Definition plain_file (f : File) : bool := forallb plain_line f.

(** What is left of the tab, the text and the newline of a rendered line
    once trailing white space is cut. *)
Definition line_tail (l : str) : str := rstrip (TAB :: l ++ [LF]).

(** A diffed line that starts, after white space, with the number [m]
    followed by white space or nothing. *)
Definition numbered (y : str) (m : nat) : Prop :=
  exists t, lstrip y = dec m ++ t
            /\ (hd_error t = None
                \/ exists c, hd_error t = Some c /\ nonspace c = false).

(** The rendered lines before the last, as [splitlines] gives them. *)
Fixpoint bodies (k : nat) (g : File) : list str :=
  match g with
  | [] => []
  | x :: g' => (pad k ++ dec k ++ TAB :: x) :: bodies (S k) g'
  end.

(** The number tokens of the lines of a batch that split in two. *)
Definition batch_keys (new_lines : list str) : list str :=
  flat_map (fun l => match split_maxsplit1 l with
                     | [k; _] => [k]
                     | _ => []
                     end) new_lines.

(** The records of the matching lines of a batch, in the order of the
    batch: the number token and the text after it. *)
Definition records (regex : Regex) (new_lines : list str) : OrderedDict :=
  flat_map (fun l => match split_maxsplit1 l with
                     | [k; t] => if search regex t then [(k, t)] else []
                     | _ => []
                     end) new_lines.

(* --------------------------------------------------------------------- *)
(** * Concrete files, collaborators and command lines                     *)
(* --------------------------------------------------------------------- *)

Definition app_log : str := py "/var/log/app.log".

(** A world whose only file is [path], nothing done yet. *)
Definition world_of (path : str) (f : File) : World :=
  mkWorld (fun p => if str_eqb p path then Some f else None) [] 0.

(** Every collaborator works. *)
Definition env_ok : Env := mkEnv (fun _ => inr 0%Z) None (fun _ _ _ => None).

(** The logger exits with status 1. *)
Definition env_logger_fails : Env :=
  mkEnv (fun _ => inr 1%Z) None (fun _ _ _ => None).

(** Nothing listens on localhost:25. *)
Definition env_no_relay : Env :=
  mkEnv (fun _ => inr 0%Z) (Some OSError) (fun _ _ _ => None).

(** The empty pattern: it matches the empty slice at every position. *)
Definition re_empty : Regex := mkRegex [] (fun _ i j => i =? j).

Definition re_ERROR : Regex := literal (py "ERROR").

Definition three_lines : File := [py "a"; py "b"; py "c"].

(** The same file after a write that made its last line longer. *)
Definition three_lines_grown : File := [py "a"; py "b"; py "cd"].

(** The sinks given on the command line fail the checks of
    [base_watcher]: none at all, or one of the from-address and the
    to-addresses without the other. *)
Definition sinks_misconfigured (syslog : bool) (from_addr : option str)
    (to_addrs : option (list str)) : bool :=
  negb (syslog || truthy from_addr || truthy to_addrs)
  || xorb (truthy from_addr) (truthy to_addrs).

(** re.compile accepting every pattern as a literal, and refusing all. *)
Definition compile_literal (s : str) : Exn + Regex := inr (literal s).

Definition compile_refuses (s : str) : Exn + Regex := inl re_error.

Definition args_no_sink : Args := mkArgs (py "ERROR") [app_log] false None None.

(* --------------------------------------------------------------------- *)
(** * Further notions: duplicate tokens, whole files, long runs           *)
(* --------------------------------------------------------------------- *)

(** A line of the batch that splits into the number token [k] and a text
    in which the pattern is found. *)
Definition matching_line (regex : Regex) (k t line : str) : Prop :=
  split_maxsplit1 line = [k; t] /\ search regex t = true.

(** The text the loop tests for each line of a run of file lines numbered
    from [k]: the line without its leading white space and, for the last
    line of the run, without its trailing white space either, the output
    of the child being stripped as a whole. *)
Fixpoint tested_texts (k : nat) (g : File) : list (nat * str) :=
  match g with
  | [] => []
  | x :: g' =>
      match g' with
      | [] => [(k, strip x)]
      | _ :: _ => (k, lstrip x) :: tested_texts (S k) g'
      end
  end.

(** The record a numbered text gives: none when the text is empty or the
    pattern is not found in it. *)
Definition report (regex : Regex) (kt : nat * str) : OrderedDict :=
  match snd kt with
  | [] => []
  | t => if search regex t then [(dec (fst kt), t)] else []
  end.

(** The records expected from the lines of [f] after line [n]. *)
Definition reported (regex : Regex) (n : nat) (f : File) : OrderedDict :=
  flat_map (report regex) (tested_texts (S n) (skipn n f)).

(** A diffed line splits into the number of [kt] and, unless it is empty,
    the text of [kt]. *)
Definition splits_as (y : str) (kt : nat * str) : Prop :=
  split_maxsplit1 y = match snd kt with
                      | [] => [dec (fst kt)]
                      | t => [dec (fst kt); t]
                      end.

(** The form feed, one of the line boundaries of [splitlines]. *)
Definition FF : ascii := ascii_of_nat 12.

(** Sinks that never raise: the logger call returns some exit status, the
    relay accepts the connection and every message. *)
Definition env_works (env : Env) : Prop :=
  (forall c, exists rc, run_logger env c = inr rc)
  /\ smtp_connect env = None
  /\ forall a tos m, smtp_send env a tos m = None.

(** A schedule in which the watched file is successively replaced by each
    content of [files], every change being notified as a MODIFY event. *)
Definition ticks_of (env : Env) (file_ : str) (files : list File)
    : list Tick :=
  map (fun f => mkTick [(file_, Some f)] 0 env) files.

(** Each content is made of plain lines and has more lines than the one
    before it, the first more than [n]. *)
Fixpoint strictly_growing (n : nat) (files : list File) : Prop :=
  match files with
  | [] => True
  | f :: rest =>
      plain_file f = true /\ n < length f /\ strictly_growing (length f) rest
  end.

(** A wake-up of the loop that is not a MODIFY event. *)
Definition no_modify (t : Tick) : bool := negb (tick_inotify t =? 0)%Z.

(** What a watcher with syslog as its only sink hands to the logger for
    a dictionary of matches: nothing when it is empty, one command line
    otherwise. *)
Definition syslog_events (file_ : str) (d : OrderedDict) : list Event :=
  match d with
  | [] => []
  | _ :: _ => [EvLogger (logger_command (syslog_message file_ d))]
  end.

(* ===================================================================== *)
(** * Part II: lemmas and theorems                                        *)
(* ===================================================================== *)

Example strip_ex :
  strip (py "  1" ++ [TAB] ++ py "a" ++ [LF] ++ py " ") = py "1" ++ [TAB] ++ py "a".
Proof. reflexivity. Qed.

Example splitlines_ex :
  splitlines (py "a" ++ [LF; LF] ++ py "b" ++ [CR; LF] ++ py "c" ++ [LF])
  = [py "a"; []; py "b"; py "c"].
Proof. reflexivity. Qed.

Example split_ex : split (py "  12  ab   c ") = [py "12"; py "ab"; py "c"].
Proof. reflexivity. Qed.

Example split_maxsplit1_ex :
  split_maxsplit1 (py "    7  ab  c ") = [py "7"; py "ab  c "].
Proof. reflexivity. Qed.

Example split_maxsplit1_short : split_maxsplit1 (py "    7  ") = [py "7"].
Proof. reflexivity. Qed.

Example int_ex : int (py "1_000") = Some 1000%Z /\ int (py "-12") = Some (-12)%Z
                 /\ int (py "1__0") = None /\ int (py "bar") = None
                 /\ int (dec 1234) = Some 1234%Z.
Proof. repeat split; reflexivity. Qed.

(* --------------------------------------------------------------------- *)
(** * Facts about the string operations                                   *)
(* --------------------------------------------------------------------- *)

Module PyStrFacts.

Ltac norm_app := repeat first [rewrite <- app_assoc | progress cbn [app]].

Ltac by_cases_on_char c :=
  destruct c as [[] [] [] [] [] [] [] []]; vm_compute; intros;
  try reflexivity; try discriminate; try congruence.

Lemma isdigit_nonspace c : isdigit c = true -> isspace c = false.
Proof. by_cases_on_char c. Qed.

Lemma isdigit_nobreak c : isdigit c = true -> islinebreak c = false.
Proof. by_cases_on_char c. Qed.

Lemma islinebreak_isspace c : islinebreak c = true -> isspace c = true.
Proof. by_cases_on_char c. Qed.

Lemma str_eqb_eq a b : str_eqb a b = true <-> a = b.
Proof.
  unfold str_eqb. destruct (list_eq_dec ascii_dec a b); split; congruence.
Qed.

Lemma str_eqb_refl a : str_eqb a a = true.
Proof. now apply str_eqb_eq. Qed.

Lemma str_eqb_neq a b : a <> b -> str_eqb a b = false.
Proof.
  intros H. unfold str_eqb. destruct (list_eq_dec ascii_dec a b); congruence.
Qed.

(** ** lstrip, rstrip *)

Lemma lstrip_spaces p s : forallb isspace p = true -> lstrip (p ++ s) = lstrip s.
Proof.
  induction p as [|c p IH]; simpl; [reflexivity|].
  intros H. apply andb_true_iff in H as [Hc Hp].
  unfold lstrip in *. simpl. rewrite Hc. now apply IH.
Qed.

Lemma lstrip_head c s : isspace c = false -> lstrip (c :: s) = c :: s.
Proof. intros H. unfold lstrip. simpl. now rewrite H. Qed.

Lemma lstrip_app u v :
  existsb nonspace u = true -> lstrip (u ++ v) = lstrip u ++ v.
Proof.
  induction u as [|c u IH]; simpl; [discriminate|].
  unfold lstrip, nonspace in *. simpl.
  destruct (isspace c); simpl; [exact IH | reflexivity].
Qed.

Lemma lstrip_suffix s : exists p, s = p ++ lstrip s /\ forallb isspace p = true.
Proof.
  induction s as [|c s (p & Hs & Hp)].
  - now exists [].
  - unfold lstrip in *. simpl. destruct (isspace c) eqn:Hc.
    + exists (c :: p). simpl. rewrite Hc, Hp. split; [now f_equal | reflexivity].
    + now exists [].
Qed.

Lemma rstrip_nonspace_app d t :
  forallb nonspace d = true -> rstrip (d ++ t) = d ++ rstrip t.
Proof.
  induction d as [|c d IH]; simpl; [reflexivity|].
  intros H. apply andb_true_iff in H as [Hc Hd].
  rewrite (IH Hd). unfold nonspace in Hc.
  destruct (d ++ rstrip t) eqn:E; [|reflexivity].
  destruct (isspace c); [discriminate | reflexivity].
Qed.

Lemma rstrip_app x y : rstrip y <> [] -> rstrip (x ++ y) = x ++ rstrip y.
Proof.
  intros Hy. induction x as [|c x IH]; simpl; [reflexivity|].
  rewrite IH. destruct (x ++ rstrip y) eqn:E; [|reflexivity].
  apply app_eq_nil in E as [_ E]. contradiction.
Qed.

Lemma rstrip_snoc_space s c : isspace c = true -> rstrip (s ++ [c]) = rstrip s.
Proof.
  intros Hc. induction s as [|a s IH]; simpl.
  - now rewrite Hc.
  - now rewrite IH.
Qed.

Lemma rstrip_forallb p s : forallb p s = true -> forallb p (rstrip s) = true.
Proof.
  induction s as [|c s IH]; simpl; [reflexivity|].
  intros H. apply andb_true_iff in H as [Hc Hs]. specialize (IH Hs).
  destruct (rstrip s) eqn:E.
  - destruct (isspace c); simpl; [reflexivity | now rewrite Hc].
  - cbn [forallb] in *. now rewrite Hc, IH.
Qed.

Lemma rstrip_head c s : rstrip (c :: s) = [] \/ exists t, rstrip (c :: s) = c :: t.
Proof.
  simpl. destruct (rstrip s).
  - destruct (isspace c); [now left | right; now exists []].
  - right. eauto.
Qed.

(** ** takewhile *)

Lemma takewhile_all p d t :
  forallb p d = true ->
  hd_error t = None \/ (exists c, hd_error t = Some c /\ p c = false) ->
  takewhile p (d ++ t) = d.
Proof.
  intros Hd Ht. induction d as [|c d IH]; simpl in *.
  - destruct t as [|c t]; [reflexivity|].
    destruct Ht as [Ht | (c' & Ht & Hc)]; [discriminate|].
    simpl in Ht. injection Ht as ->. simpl. now rewrite Hc.
  - apply andb_true_iff in Hd as [Hc Hd]. rewrite Hc. f_equal. now apply IH.
Qed.

Lemma dropwhile_all p d t :
  forallb p d = true ->
  hd_error t = None \/ (exists c, hd_error t = Some c /\ p c = false) ->
  dropwhile p (d ++ t) = t.
Proof.
  intros Hd Ht. induction d as [|c d IH]; simpl in *.
  - destruct t as [|c t]; [reflexivity|].
    destruct Ht as [Ht | (c' & Ht & Hc)]; [discriminate|].
    simpl in Ht. injection Ht as ->. simpl. now rewrite Hc.
  - apply andb_true_iff in Hd as [Hc Hd]. rewrite Hc. now apply IH.
Qed.

(** ** splitlines *)

Lemma splitlines_nonempty s : s <> [] -> splitlines s <> [].
Proof.
  destruct s as [|c s]; [congruence|]. intros _. simpl.
  destruct (islinebreak c).
  - destruct (Ascii.eqb c CR); [destruct s as [|d s]; [|destruct (Ascii.eqb d LF)]|];
      discriminate.
  - destruct (splitlines s); discriminate.
Qed.

Lemma splitlines_one s :
  s <> [] -> forallb nobreak s = true -> splitlines s = [s].
Proof.
  unfold nobreak. intros Hs H. induction s as [|c s IH]; [congruence|].
  simpl in H. apply andb_true_iff in H as [Hc H].
  simpl. destruct (islinebreak c); [discriminate|].
  destruct s as [|d s]; [reflexivity|].
  rewrite IH; [reflexivity | discriminate | exact H].
Qed.

Lemma splitlines_app_LF_aux n : forall x y,
  length x <= n -> splitlines (x ++ LF :: y) = splitlines (x ++ [LF]) ++ splitlines y.
Proof.
  induction n as [|n IH]; intros x y Hn.
  - destruct x; [reflexivity | simpl in Hn; lia].
  - destruct x as [|c x]; [reflexivity|].
    simpl in Hn. cbn [app splitlines].
    destruct (islinebreak c) eqn:Hc.
    + destruct (Ascii.eqb c CR) eqn:Hcr.
      * destruct x as [|d x].
        -- reflexivity.
        -- cbn [app]. destruct (Ascii.eqb d LF).
           ++ simpl. f_equal. apply IH. simpl in Hn. lia.
           ++ simpl. f_equal. apply (IH (d :: x)). simpl in *. lia.
      * simpl. f_equal. apply IH. lia.
    + rewrite (IH x y) by lia.
      destruct (splitlines (x ++ [LF])) eqn:E.
      * exfalso. revert E. apply splitlines_nonempty. now destruct x.
      * reflexivity.
Qed.

Lemma splitlines_app_LF x y :
  splitlines (x ++ LF :: y) = splitlines (x ++ [LF]) ++ splitlines y.
Proof. now apply (splitlines_app_LF_aux (length x)). Qed.

End PyStrFacts.

(* --------------------------------------------------------------------- *)
(** * Decimal numbers: rendering and [int]                                *)
(* --------------------------------------------------------------------- *)

Module DecFacts.
Import PyStrFacts.

Lemma uint_chars_digits d : forallb isdigit (uint_chars d) = true.
Proof.
  unfold uint_chars. induction d; simpl; auto.
Qed.

Lemma int_digits_uint d : forall acc,
  int_digits (Z.of_nat acc) true (uint_chars d)
  = Some (Z.of_nat (Nat.of_uint_acc d acc)).
Proof.
  unfold uint_chars.
  induction d; intros acc; cbn [NilEmpty.string_of_uint String.list_ascii_of_string
    int_digits Nat.of_uint_acc]; [reflexivity| ..];
  (change (digit_val _) with (Some 0%Z) || change (digit_val _) with (Some 1%Z)
   || change (digit_val _) with (Some 2%Z) || change (digit_val _) with (Some 3%Z)
   || change (digit_val _) with (Some 4%Z) || change (digit_val _) with (Some 5%Z)
   || change (digit_val _) with (Some 6%Z) || change (digit_val _) with (Some 7%Z)
   || change (digit_val _) with (Some 8%Z) || change (digit_val _) with (Some 9%Z));
  cbv iota beta; rewrite <- IHd; f_equal; rewrite Nat.tail_mul_spec; lia.
Qed.

Lemma int_digits_first c s acc :
  isdigit c = true ->
  int_digits acc false (c :: s) = int_digits acc true (c :: s).
Proof. intros H. simpl. unfold digit_val. now rewrite H. Qed.

Lemma dec_digits n : forallb isdigit (dec n) = true.
Proof. apply uint_chars_digits. Qed.

Lemma dec_nonempty n : dec n <> [].
Proof.
  unfold dec. intros E.
  pose proof (DecimalNat.Unsigned.of_to n) as H.
  destruct (Nat.to_uint n) eqn:En; simpl in E; try discriminate.
  destruct n; [discriminate En|]. simpl in H. discriminate.
Qed.

Lemma dec_nonspace n : forallb nonspace (dec n) = true.
Proof.
  pose proof (dec_digits n) as H. rewrite forallb_forall in *.
  intros c Hc. unfold nonspace. now rewrite (isdigit_nonspace c (H c Hc)).
Qed.

Lemma dec_nobreak n : forallb nobreak (dec n) = true.
Proof.
  pose proof (dec_digits n) as H. rewrite forallb_forall in *.
  intros c Hc. unfold nobreak. now rewrite (isdigit_nobreak c (H c Hc)).
Qed.

Lemma strip_nonspace s : forallb nonspace s = true -> strip s = s.
Proof.
  intros H. unfold strip.
  rewrite <- (app_nil_r s) at 1. rewrite (rstrip_nonspace_app s [] H).
  simpl. rewrite app_nil_r. destruct s as [|c s]; [reflexivity|].
  simpl in H. apply andb_true_iff in H as [Hc _].
  apply lstrip_head. unfold nonspace in Hc. now destruct (isspace c).
Qed.

(** [int] reads back what [dec] writes. *)
Lemma int_dec n : int (dec n) = Some (Z.of_nat n).
Proof.
  unfold int. rewrite (strip_nonspace _ (dec_nonspace n)).
  pose proof (dec_digits n) as Hd. pose proof (dec_nonempty n) as Hne.
  destruct (dec n) as [|c s] eqn:E; [congruence|].
  assert (Hc : isdigit c = true) by (simpl in Hd; now apply andb_true_iff in Hd).
  assert (R : int_digits 0 false (c :: s) = Some (Z.of_nat n)).
  { rewrite (int_digits_first c s 0 Hc). rewrite <- E.
    pose proof (int_digits_uint (Nat.to_uint n) 0) as R0.
    change (Nat.of_uint_acc (Nat.to_uint n) 0)
      with (Nat.of_uint (Nat.to_uint n)) in R0.
    rewrite DecimalNat.Unsigned.of_to in R0. exact R0. }
  destruct c as [[] [] [] [] [] [] [] []]; try exact R; discriminate Hc.
Qed.

End DecFacts.

(* --------------------------------------------------------------------- *)
(** * The numbered lines read after the cursor                            *)
(* --------------------------------------------------------------------- *)

Module DiffFacts.
Import PyStrFacts DecFacts.

Lemma pad_spaces k : forallb isspace (pad k) = true.
Proof. unfold pad. induction (6 - length (dec k)); simpl; auto. Qed.

Lemma nl_line_eq k l : nl_line k l = pad k ++ dec k ++ TAB :: l ++ [LF].
Proof. reflexivity. Qed.

Lemma nl_from_snoc g : forall l k,
  nl_from k (g ++ [l]) = nl_from k g ++ [nl_line (k + length g) l].
Proof.
  induction g as [|x g IH]; intros l k; cbn [nl_from app length].
  - now rewrite Nat.add_0_r.
  - rewrite IH. now replace (S k + length g) with (k + S (length g)) by lia.
Qed.

Lemma skipn_nl_from n : forall k f,
  skipn n (nl_from k f) = nl_from (k + n) (skipn n f).
Proof.
  induction n as [|n IH]; intros k f; cbn [skipn].
  - now rewrite Nat.add_0_r.
  - destruct f as [|l f]; cbn [nl_from skipn]; [reflexivity|].
    rewrite IH. now replace (S k + n) with (k + S n) by lia.
Qed.

Lemma line_tail_nobreak l :
  forallb nobreak l = true -> forallb nobreak (line_tail l) = true.
Proof.
  intros H. unfold line_tail.
  change (TAB :: l ++ [LF]) with ((TAB :: l) ++ [LF]).
  rewrite rstrip_snoc_space by reflexivity.
  apply rstrip_forallb. simpl. now rewrite H.
Qed.

Lemma line_tail_head l :
  hd_error (line_tail l) = None
  \/ (exists c, hd_error (line_tail l) = Some c /\ nonspace c = false).
Proof.
  unfold line_tail. destruct (rstrip_head TAB (l ++ [LF])) as [E | (t & E)];
    rewrite E; [now left | right]. now exists TAB.
Qed.

Lemma rstrip_rendered a k l :
  rstrip (a ++ nl_line k l) = a ++ pad k ++ dec k ++ line_tail l.
Proof.
  rewrite nl_line_eq.
  assert (R : rstrip (dec k ++ TAB :: l ++ [LF]) = dec k ++ line_tail l)
    by apply rstrip_nonspace_app, dec_nonspace.
  assert (N : rstrip (dec k ++ TAB :: l ++ [LF]) <> []).
  { rewrite R. intros E. apply app_eq_nil in E as [E _].
    now apply dec_nonempty in E. }
  rewrite (app_assoc a (pad k)), (rstrip_app (a ++ pad k) _ N), R.
  now rewrite <- app_assoc.
Qed.

Lemma lstrip_dec k t : lstrip (dec k ++ t) = dec k ++ t.
Proof.
  pose proof (dec_nonspace k) as H. pose proof (dec_nonempty k) as N.
  destruct (dec k) as [|c d]; [congruence|].
  simpl in H. apply andb_true_iff in H as [Hc _]. unfold nonspace in Hc.
  apply lstrip_head. now destruct (isspace c).
Qed.

Lemma lstrip_last_line k l :
  lstrip (pad k ++ dec k ++ line_tail l) = dec k ++ line_tail l.
Proof. rewrite lstrip_spaces by apply pad_spaces. apply lstrip_dec. Qed.

(** The cursor the loop takes from a batch whose last line starts, after
    white space, with the number [m] rendered by nl. *)
Lemma set_line_no_last pre y m l :
  lstrip y = dec m ++ line_tail l ->
  set_line_no (pre ++ [y]) = inr (Z.of_nat m).
Proof.
  intros Hy. unfold set_line_no. rewrite rev_app_distr. cbn [rev app].
  unfold split. cbn [split_words]. rewrite Hy.
  pose proof (dec_nonspace m) as H. pose proof (dec_nonempty m) as N.
  pose proof (int_dec m) as I.
  destruct (dec m) as [|c d]; [congruence|].
  simpl in H. apply andb_true_iff in H as [_ Hd].
  cbn [app]. rewrite (takewhile_all nonspace d (line_tail l) Hd (line_tail_head l)).
  now rewrite I.
Qed.

Lemma concat_nl_from_end g k :
  g <> [] ->
  exists b, concat (nl_from k g) = b ++ [LF] /\ existsb nonspace b = true.
Proof.
  intros Hg. destruct (exists_last Hg) as (g' & l & ->).
  rewrite nl_from_snoc, concat_app. cbn [concat]. rewrite app_nil_r.
  set (m := k + length g'). rewrite nl_line_eq.
  exists (concat (nl_from k g') ++ pad m ++ dec m ++ TAB :: l). split.
  - rewrite <- !app_assoc. cbn [app]. now do 3 f_equal.
  - rewrite !existsb_app.
    pose proof (dec_nonspace m) as H. pose proof (dec_nonempty m) as N.
    destruct (dec m) as [|c d]; [congruence|].
    simpl in H. apply andb_true_iff in H as [Hc _].
    cbn [existsb]. rewrite Hc. cbn. now rewrite !orb_true_r.
Qed.

(** Reading a non-empty run of rendered lines numbered from [k]: the
    cursor becomes the number of the last one. *)
Lemma set_line_no_rendered g k :
  g <> [] -> forallb (forallb nobreak) g = true ->
  set_line_no (splitlines (strip (concat (nl_from k g))))
  = inr (Z.of_nat (k + length g - 1)).
Proof.
  intros Hg Hplain. destruct (exists_last Hg) as (g' & l & ->).
  rewrite forallb_app in Hplain. apply andb_true_iff in Hplain as [_ Hl].
  cbn [forallb] in Hl. rewrite andb_true_r in Hl.
  rewrite nl_from_snoc, concat_app. cbn [concat]. rewrite app_nil_r.
  replace (k + length (g' ++ [l]) - 1) with (k + @length str g')
    by (rewrite length_app; cbn [length]; unfold str; lia).
  generalize (k + @length str g'). intros m. unfold strip. rewrite rstrip_rendered.
  assert (Hnb : forallb nobreak (dec m ++ line_tail l) = true).
  { rewrite forallb_app, dec_nobreak. now apply line_tail_nobreak. }
  assert (Hne : dec m ++ line_tail l <> []).
  { intros E. apply app_eq_nil in E as [E _]. now apply dec_nonempty in E. }
  destruct g' as [|x g'].
  - cbn [nl_from concat app]. rewrite lstrip_last_line.
    rewrite splitlines_one by assumption.
    apply (set_line_no_last [] _ m l), lstrip_dec.
  - destruct (concat_nl_from_end (x :: g') k ltac:(discriminate)) as (b & -> & Hb).
    rewrite <- app_assoc. rewrite lstrip_app by exact Hb.
    cbn [app]. rewrite splitlines_app_LF.
    rewrite (splitlines_one (pad m ++ dec m ++ line_tail l)).
    + apply (set_line_no_last _ _ m l). apply lstrip_last_line.
    + intros E. apply app_eq_nil in E as [_ E]. contradiction.
    + rewrite forallb_app, Hnb, andb_true_r.
      unfold pad. induction (6 - length (dec m)); simpl; auto.
Qed.

End DiffFacts.

Module CycleFacts.
Import PyStrFacts DecFacts DiffFacts.

Lemma numbered_first_word y m :
  numbered y m -> exists rest, split y = dec m :: rest.
Proof.
  intros (t & Hy & Ht). unfold split. cbn [split_words]. rewrite Hy.
  pose proof (dec_nonspace m) as H. pose proof (dec_nonempty m) as N.
  destruct (dec m) as [|c d]; [congruence|].
  simpl in H. apply andb_true_iff in H as [_ Hd].
  cbn [app]. rewrite (takewhile_all nonspace d t Hd Ht). eauto.
Qed.

Lemma numbered_line_number y m :
  numbered y m -> line_number y = Some (Z.of_nat m).
Proof.
  intros H. destruct (numbered_first_word y m H) as (rest & E).
  unfold line_number. rewrite E. apply int_dec.
Qed.

Lemma line_numbers_numbered ys : forall ms,
  Forall2 numbered ys ms -> line_numbers ys = map Z.of_nat ms.
Proof.
  induction 1 as [|y m ys ms Hy _ IH]; [reflexivity|].
  unfold line_numbers in *. cbn [flat_map map].
  now rewrite (numbered_line_number y m Hy), IH.
Qed.

Lemma splitlines_body b rest :
  forallb nobreak b = true -> splitlines (b ++ LF :: rest) = b :: splitlines rest.
Proof.
  induction b as [|c b IH]; intros H.
  - reflexivity.
  - simpl in H. apply andb_true_iff in H as [Hc Hb]. unfold nobreak in Hc.
    cbn [app splitlines]. destruct (islinebreak c); [discriminate|].
    now rewrite (IH Hb).
Qed.

Lemma body_nobreak k x :
  forallb nobreak x = true -> forallb nobreak (pad k ++ dec k ++ TAB :: x) = true.
Proof.
  intros H. rewrite !forallb_app, dec_nobreak. cbn [forallb]. rewrite H.
  unfold pad. induction (6 - length (dec k)); simpl; auto.
Qed.

Lemma splitlines_bodies g : forall k y,
  forallb (forallb nobreak) g = true ->
  forallb nobreak y = true -> y <> [] ->
  splitlines (concat (nl_from k g) ++ y) = bodies k g ++ [y].
Proof.
  induction g as [|x g IH]; intros k y Hg Hy Hne.
  - cbn. now apply splitlines_one.
  - simpl in Hg. apply andb_true_iff in Hg as [Hx Hg].
    cbn [nl_from concat bodies app].
    assert (E : (nl_line k x ++ concat (nl_from (S k) g)) ++ y
                = (pad k ++ dec k ++ TAB :: x)
                  ++ LF :: (concat (nl_from (S k) g) ++ y))
      by (rewrite nl_line_eq; now norm_app).
    rewrite E, splitlines_body by now apply body_nobreak.
    now rewrite IH.
Qed.

Lemma numbered_body k x : numbered (pad k ++ dec k ++ TAB :: x) k.
Proof.
  exists (TAB :: x). split.
  - rewrite lstrip_spaces by apply pad_spaces. apply lstrip_dec.
  - right. now exists TAB.
Qed.

Lemma numbered_bodies g : forall k, Forall2 numbered (bodies k g) (seq k (length g)).
Proof.
  induction g as [|x g IH]; intros k; cbn [bodies length seq]; constructor.
  - apply numbered_body.
  - apply IH.
Qed.

Lemma numbered_last_line m l : numbered (pad m ++ dec m ++ line_tail l) m.
Proof.
  exists (line_tail l). split; [apply lstrip_last_line | apply line_tail_head].
Qed.

(** The batch read from a non-empty run of plain lines numbered from [k]
    holds one line for each, in order, each starting with its number. *)
Lemma diff_numbered g k :
  g <> [] -> forallb (forallb nobreak) g = true ->
  Forall2 numbered (splitlines (strip (concat (nl_from k g)))) (seq k (length g)).
Proof.
  intros Hg Hplain. destruct (exists_last Hg) as (g' & l & ->).
  rewrite forallb_app in Hplain. apply andb_true_iff in Hplain as [Hg' Hl].
  cbn [forallb] in Hl. rewrite andb_true_r in Hl.
  rewrite nl_from_snoc, concat_app. cbn [concat]. rewrite app_nil_r.
  rewrite length_app, seq_app. cbn [length seq].
  change (@length (list ascii) g') with (@length str g').
  generalize (k + @length str g'). intros m. unfold strip. rewrite rstrip_rendered.
  assert (Hnb : forallb nobreak (pad m ++ dec m ++ line_tail l) = true).
  { rewrite !forallb_app, dec_nobreak, (line_tail_nobreak l Hl).
    unfold pad. induction (6 - length (dec m)); simpl; auto. }
  assert (Hne : pad m ++ dec m ++ line_tail l <> []).
  { intros E. apply app_eq_nil in E as [_ E]. apply app_eq_nil in E as [E _].
    now apply dec_nonempty in E. }
  destruct g' as [|x g'].
  - cbn [nl_from concat app length seq]. rewrite lstrip_last_line.
    rewrite splitlines_one.
    + constructor; [|constructor]. exists (line_tail l). split.
      * apply lstrip_dec.
      * apply line_tail_head.
    + intros E. apply app_eq_nil in E as [E _]. now apply dec_nonempty in E.
    + rewrite forallb_app, dec_nobreak. now apply line_tail_nobreak.
  - simpl in Hg'. apply andb_true_iff in Hg' as [Hx Hg'].
    cbn [nl_from concat length seq].
    assert (E : (nl_line k x ++ concat (nl_from (S k) g'))
                  ++ pad m ++ dec m ++ line_tail l
                = pad k ++ (dec k ++ TAB :: x)
                  ++ LF :: (concat (nl_from (S k) g')
                            ++ pad m ++ dec m ++ line_tail l))
      by (rewrite nl_line_eq; now norm_app).
    rewrite E, lstrip_spaces by apply pad_spaces.
    rewrite <- app_assoc, lstrip_dec, app_assoc.
    rewrite splitlines_body
      by (rewrite forallb_app, dec_nobreak; cbn [forallb]; now rewrite Hx).
    rewrite splitlines_bodies by assumption.
    constructor.
    + exists (TAB :: x). split; [apply lstrip_dec | right; now exists TAB].
    + apply Forall2_app; [apply numbered_bodies|].
      constructor; [apply numbered_last_line | constructor].
Qed.

End CycleFacts.

Module WatcherFacts.
Import PyStrFacts DecFacts DiffFacts CycleFacts.

Lemma tail_from_nl_ba n f :
  tail_from (Z.of_nat n + 1) (nl_ba f) = nl_from (S n) (skipn n f).
Proof.
  unfold tail_from, nl_ba.
  destruct (Z.ltb_spec (Z.of_nat n + 1) 0) as [H|_]; [lia|].
  replace (Z.to_nat (Z.of_nat n + 1) - 1) with n by lia.
  now rewrite skipn_nl_from.
Qed.

Lemma plain_file_nobreak f :
  plain_file f = true -> forallb (forallb nobreak) f = true.
Proof.
  unfold plain_file, plain_line. induction f as [|l f IH]; simpl; [reflexivity|].
  intros H. apply andb_true_iff in H as [Hl Hf].
  apply andb_true_iff in Hl as [Hl _]. now rewrite Hl, IH.
Qed.

Lemma forallb_skipn {A} (p : A -> bool) n : forall l,
  forallb p l = true -> forallb p (skipn n l) = true.
Proof.
  induction n as [|n IH]; intros [|x l] H; simpl; auto.
  simpl in H. apply andb_true_iff in H as [_ H]. now apply IH.
Qed.

Lemma length_nl_from f : forall k, length (nl_from k f) = length f.
Proof. induction f as [|l f IH]; intros k; simpl; [reflexivity | now rewrite IH]. Qed.

(** With a line beyond the cursor, the batch lists the lines after the
    cursor, each under its number, and the new cursor is the number of
    lines of the file. *)
Lemma diff_lines_growth f n :
  plain_file f = true -> n < length f ->
  Forall2 numbered (diff_lines (Some f) (Z.of_nat n)) (seq (S n) (length f - n))
  /\ set_line_no (diff_lines (Some f) (Z.of_nat n)) = inr (Z.of_nat (length f)).
Proof.
  intros Hp Hn. unfold diff_lines, numbered_tail. rewrite tail_from_nl_ba.
  assert (Hne : skipn n f <> []).
  { intros E. apply (f_equal (@length _)) in E. rewrite length_skipn in E.
    simpl in E. lia. }
  assert (Hnb : forallb (forallb nobreak) (skipn n f) = true)
    by now apply forallb_skipn, plain_file_nobreak.
  split.
  - rewrite <- (length_skipn n f). now apply diff_numbered.
  - rewrite set_line_no_rendered by assumption.
    rewrite length_skipn. do 2 f_equal. lia.
Qed.

(** With no line beyond the cursor the batch is empty. *)
Lemma diff_lines_nothing_new f n :
  length f <= n -> diff_lines (Some f) (Z.of_nat n) = [].
Proof.
  intros Hn. unfold diff_lines, numbered_tail. rewrite tail_from_nl_ba.
  now rewrite (skipn_all2 f Hn).
Qed.

Lemma max_seq n : forall k,
  fold_right Z.max 0%Z (map Z.of_nat (seq k (S n))) = Z.of_nat (k + n).
Proof.
  induction n as [|n IH]; intros k.
  - cbn. rewrite Nat.add_0_r. lia.
  - cbn [seq map fold_right] in *. rewrite (IH (S k)). lia.
Qed.

Lemma max_line_number_growth f n :
  plain_file f = true -> n < length f ->
  max_line_number (diff_lines (Some f) (Z.of_nat n)) = Z.of_nat (length f).
Proof.
  intros Hp Hn. destruct (diff_lines_growth f n Hp Hn) as [H _].
  unfold max_line_number. rewrite (line_numbers_numbered _ _ H).
  replace (length f - n) with (S (length f - n - 1)) by lia.
  rewrite max_seq. f_equal. lia.
Qed.

(** One turn of the loop after a MODIFY event, step by step. *)
Lemma watch_cycle_eq env file_ regex syslog from_addr to_addrs line_no w :
  watch_cycle env file_ regex syslog from_addr to_addrs 0 line_no w
  = let lines := diff_lines (fs w file_) line_no in
    match set_line_no lines with
    | inl e => (w, inl e)
    | inr c =>
        match base_verifier_sender env lines syslog from_addr to_addrs
                regex file_ w with
        | (w', inl e) => (w', inl e)
        | (w', inr _) => (w', inr c)
        end
    end.
Proof.
  unfold watch_cycle, new_lines_, _run_command, tail_cmd, bind, ret, lift.
  cbn [Z.eqb returncode stdout stderr fst snd]. fold (diff_lines (fs w file_) line_no).
  cbv zeta. destruct (set_line_no (diff_lines (fs w file_) line_no)); [reflexivity|].
  destruct (base_verifier_sender _ _ _ _ _ _ _ w) as [w' [e|[]]]; reflexivity.
Qed.

Lemma watch_cycle_no_event env file_ regex syslog from_addr to_addrs st line_no w :
  st <> 0%Z ->
  watch_cycle env file_ regex syslog from_addr to_addrs st line_no w
  = (w, inr line_no).
Proof.
  intros H. unfold watch_cycle. destruct (Z.eqb_spec st 0); [contradiction|].
  reflexivity.
Qed.

End WatcherFacts.

(* --------------------------------------------------------------------- *)
(** * Matching                                                            *)
(* --------------------------------------------------------------------- *)

Module MatchFacts.
Import PyStrFacts.

Lemma od_set_fresh k v d : ~ In k (map fst d) -> od_set k v d = d ++ [(k, v)].
Proof.
  induction d as [|[k' v'] d IH]; intros H; simpl; [reflexivity|].
  simpl in H. rewrite str_eqb_neq by (intros E; apply H; now left).
  f_equal. apply IH. intros E. apply H. now right.
Qed.

Lemma fold_match_line regex lines : forall d,
  NoDup (map fst d ++ batch_keys lines) ->
  fold_left (match_line regex) lines d = d ++ records regex lines.
Proof.
  induction lines as [|l lines IH]; intros d H.
  - cbn. now rewrite app_nil_r.
  - cbn [fold_left]. unfold batch_keys, records in *. cbn [flat_map] in *.
    unfold match_line at 2.
    destruct (split_maxsplit1 l) as [|k [|t [|x rest]]]; cbn [app] in *;
      try (now apply IH).
    destruct (search regex t).
    + rewrite od_set_fresh by (now apply NoDup_remove_2 in H; rewrite in_app_iff in H; tauto).
      rewrite IH.
      * now rewrite <- app_assoc.
      * rewrite map_app. cbn [map fst]. now rewrite <- app_assoc.
    + apply IH. now apply NoDup_remove_1 in H.
Qed.

(** With pairwise distinct number tokens, the dictionary built by the
    loop is the sequence of the records of the matching lines. *)
Lemma matched_lines_records regex lines :
  NoDup (batch_keys lines) -> matched_lines regex lines = records regex lines.
Proof. intros H. unfold matched_lines. now rewrite fold_match_line. Qed.

Lemma in_records regex lines k t :
  In (k, t) (records regex lines)
  <-> exists line, In line lines /\ split_maxsplit1 line = [k; t]
                   /\ search regex t = true.
Proof.
  unfold records. rewrite in_flat_map. split.
  - intros (line & Hin & H). exists line. split; [exact Hin|].
    destruct (split_maxsplit1 line) as [|k' [|t' [|x rest]]]; try contradiction.
    destruct (search regex t') eqn:Hs; [|contradiction].
    destruct H as [H|[]]. injection H as -> ->. now split.
  - intros (line & Hin & Hsp & Hs). exists line. split; [exact Hin|].
    rewrite Hsp, Hs. now left.
Qed.

Lemma lstrip_all_spaces p : forallb isspace p = true -> lstrip p = [].
Proof.
  intros H. rewrite <- (app_nil_r p). now rewrite lstrip_spaces.
Qed.

Lemma spaces_head p :
  forallb isspace p = true ->
  hd_error p = None \/ (exists c, hd_error p = Some c /\ nonspace c = false).
Proof.
  destruct p as [|c p]; [now left|]. simpl. intros H.
  apply andb_true_iff in H as [Hc _]. right. exists c. unfold nonspace.
  now rewrite Hc.
Qed.

(** A line that is a number token and white space gives at most one
    element. *)
Lemma split_maxsplit1_token_only lead tok trail :
  forallb isspace lead = true -> forallb nonspace tok = true ->
  forallb isspace trail = true ->
  split_maxsplit1 (lead ++ tok ++ trail) = [] \/
  split_maxsplit1 (lead ++ tok ++ trail) = [tok].
Proof.
  intros Hl Ht Hr. unfold split_maxsplit1. rewrite lstrip_spaces by exact Hl.
  destruct tok as [|c tok].
  - left. cbn [app]. now rewrite lstrip_all_spaces.
  - right. simpl in Ht. apply andb_true_iff in Ht as [Hc Ht].
    cbn [app]. rewrite lstrip_head by (unfold nonspace in Hc; now destruct (isspace c)).
    rewrite (takewhile_all nonspace tok trail Ht (spaces_head trail Hr)).
    rewrite (dropwhile_all nonspace tok trail Ht (spaces_head trail Hr)).
    now rewrite lstrip_all_spaces.
Qed.

(** A line with text after its number token gives the token and the text
    from its first character that is not white space. *)
Lemma split_maxsplit1_two lead tok ws c rest :
  forallb isspace lead = true ->
  tok <> [] -> forallb nonspace tok = true ->
  ws <> [] -> forallb isspace ws = true ->
  isspace c = false ->
  split_maxsplit1 (lead ++ tok ++ ws ++ c :: rest) = [tok; c :: rest].
Proof.
  intros Hl Hne Ht Hwne Hw Hc. unfold split_maxsplit1.
  rewrite lstrip_spaces by exact Hl.
  destruct tok as [|a tok]; [congruence|].
  simpl in Ht. apply andb_true_iff in Ht as [Ha Ht].
  cbn [app]. rewrite lstrip_head by (unfold nonspace in Ha; now destruct (isspace a)).
  assert (Hh : hd_error (ws ++ c :: rest) = None
               \/ exists x, hd_error (ws ++ c :: rest) = Some x /\ nonspace x = false).
  { destruct ws as [|x ws]; [congruence|]. right. exists x. split; [reflexivity|].
    simpl in Hw. apply andb_true_iff in Hw as [Hx _]. unfold nonspace. now rewrite Hx. }
  rewrite (takewhile_all nonspace tok _ Ht Hh), (dropwhile_all nonspace tok _ Ht Hh).
  rewrite lstrip_spaces by exact Hw. now rewrite lstrip_head.
Qed.

(** [search] finds a match at any start position. *)
Lemma search_spec regex s :
  search regex s = true
  <-> exists i j, i <= j <= length s /\ match_span regex s i j = true.
Proof.
  unfold search, spans_from. rewrite existsb_exists. split.
  - intros (i & Hi & H). apply existsb_exists in H as (j & Hj & H).
    apply in_seq in Hi, Hj. exists i, j. split; [lia | exact H].
  - intros (i & j & Hij & H). exists i. split; [apply in_seq; lia|].
    apply existsb_exists. exists j. split; [apply in_seq; lia | exact H].
Qed.

Lemma dec_inj a b : dec a = dec b -> a = b.
Proof.
  intros E. pose proof (DecFacts.int_dec a) as Ha. rewrite E in Ha.
  rewrite DecFacts.int_dec in Ha. injection Ha as Ha. lia.
Qed.

(** A numbered line splits into its number alone or its number and a
    text. *)
Lemma numbered_split_maxsplit1 y m :
  numbered y m ->
  split_maxsplit1 y = [dec m] \/ exists t, split_maxsplit1 y = [dec m; t].
Proof.
  intros (t & Hy & Ht). unfold split_maxsplit1. rewrite Hy.
  pose proof (DecFacts.dec_nonspace m) as H.
  pose proof (DecFacts.dec_nonempty m) as N.
  destruct (dec m) as [|c d]; [congruence|].
  simpl in H. apply andb_true_iff in H as [_ Hd]. cbn [app].
  rewrite (takewhile_all nonspace d t Hd Ht), (dropwhile_all nonspace d t Hd Ht).
  destruct (lstrip t); [now left | right; eauto].
Qed.

Lemma batch_keys_numbered ys : forall ms,
  Forall2 numbered ys ms ->
  (forall k, In k (batch_keys ys) -> exists m, In m ms /\ k = dec m)
  /\ (NoDup ms -> NoDup (batch_keys ys)).
Proof.
  induction 1 as [|y m ys ms Hy _ [IHin IHnd]].
  - split; [intros k [] | constructor].
  - unfold batch_keys in *. cbn [flat_map].
    destruct (numbered_split_maxsplit1 y m Hy) as [E | (t & E)]; rewrite E;
      cbn [app].
    + split.
      * intros k Hk. destruct (IHin k Hk) as (m' & Hm' & ->).
        exists m'. split; [now right | reflexivity].
      * intros Hnd. apply IHnd. now inversion Hnd.
    + split.
      * intros k [<- | Hk].
        -- exists m. split; [now left | reflexivity].
        -- destruct (IHin k Hk) as (m' & Hm' & ->).
           exists m'. split; [now right | reflexivity].
      * intros Hnd. inversion Hnd as [|? ? Hnotin Hnd']. subst.
        constructor; [|now apply IHnd].
        intros Hk. destruct (IHin _ Hk) as (m' & Hm' & E').
        apply dec_inj in E'. now subst.
Qed.

(** The batch read from a file of plain lines has pairwise distinct
    number tokens, so its records are those of its matching lines. *)
Lemma diff_lines_distinct_keys f n :
  plain_file f = true -> n < length f ->
  NoDup (batch_keys (diff_lines (Some f) (Z.of_nat n))).
Proof.
  intros Hp Hn. destruct (WatcherFacts.diff_lines_growth f n Hp Hn) as [H _].
  apply (proj2 (batch_keys_numbered _ _ H)). apply seq_NoDup.
Qed.

Lemma diff_lines_records regex f n :
  plain_file f = true -> n < length f ->
  matched_lines regex (diff_lines (Some f) (Z.of_nat n))
  = records regex (diff_lines (Some f) (Z.of_nat n)).
Proof.
  intros Hp Hn. now apply matched_lines_records, diff_lines_distinct_keys.
Qed.

End MatchFacts.

(* --------------------------------------------------------------------- *)
(** * Sinks and the loop                                                  *)
(* --------------------------------------------------------------------- *)

Module SinkFacts.
Import WatcherFacts.

Lemma add_events_app w a b : add_events (add_events w a) b = add_events w (a ++ b).
Proof. unfold add_events. cbn. now rewrite <- app_assoc. Qed.

Lemma log_syslog_run env message w :
  log_syslog env message w
  = match run_logger env (logger_command message) with
    | inl e => (w, inl e)
    | inr rc => (add_events w [EvLogger (logger_command message)],
                 inr (rc =? 0)%Z)
    end.
Proof.
  unfold log_syslog, _run_command, logger, bind, ret.
  destruct (run_logger env (logger_command message)); reflexivity.
Qed.

Lemma send_mail_run env from_addr to_addrs subject body w :
  send_mail env from_addr (Some to_addrs) subject body w
  = let message := mail_message from_addr to_addrs subject body in
    match smtp_connect env with
    | Some _ => (w, inl UnboundLocalError)
    | None =>
        match smtp_send env from_addr to_addrs message with
        | Some e => (add_events w [EvSmtpConnect; EvSmtpClose], inl e)
        | None =>
            (add_events w [EvSmtpConnect;
                           EvSmtpSendmail from_addr to_addrs message;
                           EvSmtpClose], inr tt)
        end
    end.
Proof.
  unfold send_mail, SMTP, try_finally, sendmail, close, add_events. cbv zeta.
  destruct (smtp_connect env); [reflexivity|].
  destruct (smtp_send env from_addr to_addrs _); cbn;
    now rewrite <- !app_assoc.
Qed.

(** Both sinks configured and a match found: the logger runs first; its
    exit status is not looked at; the mail follows. *)
Lemma base_verifier_sender_both env new_lines c a to_addrs regex file_ w :
  matched_lines regex new_lines <> [] ->
  base_verifier_sender env new_lines true (Some (c :: a)) (Some to_addrs)
    regex file_ w
  = let d := matched_lines regex new_lines in
    match run_logger env (logger_command (syslog_message file_ d)) with
    | inl e => (w, inl e)
    | inr _ =>
        send_mail env (c :: a) (Some to_addrs) (mail_subject regex file_)
          (mail_body regex file_ d)
          (add_events w [EvLogger (logger_command (syslog_message file_ d))])
    end.
Proof.
  intros Hd. unfold base_verifier_sender.
  destruct (matched_lines regex new_lines) as [|kv d] eqn:E; [congruence|].
  cbv zeta. cbn [truthy]. unfold bind at 1. unfold bind at 1.
  rewrite log_syslog_run.
  destruct (run_logger env _); reflexivity.
Qed.

Lemma base_verifier_sender_nothing env new_lines syslog from_addr to_addrs
    regex file_ w :
  matched_lines regex new_lines = [] ->
  base_verifier_sender env new_lines syslog from_addr to_addrs regex file_ w
  = (w, inr tt).
Proof. intros E. unfold base_verifier_sender. now rewrite E. Qed.

Lemma watch_loop_step file_ regex syslog from_addr to_addrs t ticks line_no w :
  watch_loop file_ regex syslog from_addr to_addrs (t :: ticks) line_no w
  = match watch_cycle (tick_env t) file_ regex syslog from_addr to_addrs
            (tick_inotify t) line_no (fst (apply_writes (tick_writes t) w)) with
    | (w', inl e) => (w', inl e)
    | (w', inr c) => watch_loop file_ regex syslog from_addr to_addrs ticks c w'
    end.
Proof. reflexivity. Qed.

End SinkFacts.

(* --------------------------------------------------------------------- *)
(** * Properties of the watcher                                           *)
(* --------------------------------------------------------------------- *)

Import PyStrFacts DecFacts DiffFacts CycleFacts WatcherFacts MatchFacts SinkFacts.

(** C1, as stated, fails: with the pattern that matches the empty text, the
    blank first line of the file has a matching content, and no record. *)
Lemma C1_counterexample :
  let file := [[]; py "x"] in
  ~ (forall k c, nth_error file k = Some c ->
       (search re_empty c = true
        <-> In (dec (S k), c)
              (matched_lines re_empty (diff_lines (Some file) 0)))).
Proof.
  intros file H. destruct (H 0 [] eq_refl) as [H1 _].
  specialize (H1 eq_refl). vm_compute in H1.
  destruct H1 as [H1|[]]. discriminate H1.
Qed.

(** C1 (amended): for every batch of diffed lines with pairwise distinct
    number tokens, the MatchRecord sequence is the sequence of the records
    of the matching lines in batch order; a record (number, text) is in it
    if and only if a line of the batch splits into that number token and a
    non-empty text after it (taken from its first character that is not
    white space) and the pattern is found in that text. *)
Theorem C1_matched_records regex new_lines :
  NoDup (batch_keys new_lines) ->
  matched_lines regex new_lines = records regex new_lines
  /\ forall k t,
       In (k, t) (matched_lines regex new_lines)
       <-> exists line, In line new_lines
                        /\ split_maxsplit1 line = [k; t]
                        /\ search regex t = true.
Proof.
  intros H. split.
  - now apply matched_lines_records.
  - intros k t. rewrite matched_lines_records by exact H. apply in_records.
Qed.

Lemma C1_matched_records_witness :
  let batch := diff_lines (Some [py "line1 INFO ok"; py "line2 ERROR boom"]) 0 in
  NoDup (batch_keys batch)
  /\ matched_lines re_ERROR batch = [(py "2", py "line2 ERROR boom")].
Proof.
  intros batch.
  assert (H : NoDup (batch_keys batch)).
  { vm_compute. repeat constructor; simpl; intuition discriminate. }
  split; [exact H|].
  rewrite (proj1 (C1_matched_records re_ERROR batch H)). reflexivity.
Defined.

(** C2, evaluated where it fails: a file of three lines was read to the
    end, then replaced by one line [ERROR boom], then a second line was
    appended.  The cycle that sees the replaced file reads nothing and sets
    the cursor to 1; the next one reads from line 2 on; line 1 of the new
    file is never read and no sink is called for it. *)
Theorem C2_reset_skips_first_line :
  let t1 := mkTick [(app_log, Some three_lines)] 0 env_ok in
  let t2 := mkTick [(app_log, Some [py "ERROR boom"])] 0 env_ok in
  let t3 := mkTick [(app_log, Some [py "ERROR boom"; py "ok"])] 0 env_ok in
  let w0 := world_of app_log [] in
  snd (watch_loop app_log re_ERROR true None None [t1] 0 w0) = inr 3%Z
  /\ diff_lines (Some [py "ERROR boom"]) 3 = []
  /\ snd (watch_loop app_log re_ERROR true None None [t1; t2] 0 w0) = inr 1%Z
  /\ diff_lines (Some [py "ERROR boom"; py "ok"]) 1 = [py "2" ++ [TAB] ++ py "ok"]
  /\ snd (watch_loop app_log re_ERROR true None None [t1; t2; t3] 0 w0) = inr 2%Z
  /\ events (fst (watch_loop app_log re_ERROR true None None [t1; t2; t3] 0 w0)) = [].
Proof. vm_compute. repeat split; reflexivity. Qed.

(** C3, as stated, fails: the file was read up to line 3, a write makes
    its last line longer, and the cursor goes from 3 to 1. *)
Lemma C3_counterexample :
  let w := world_of app_log three_lines_grown in
  ~ (forall c, snd (watch_cycle env_ok app_log re_ERROR true None None 0 3 w)
               = inr c -> (3 <= c)%Z).
Proof.
  intros w H. specialize (H 1%Z eq_refl). lia.
Qed.

(** C3 (amended): in every cycle in which the file, made of plain lines,
    holds at least one line beyond the cursor, the cursor does not
    decrease: the step that sets it gives the number of lines of the file,
    which is above the previous value, and a cycle that returns returns
    that value. *)
Theorem C3_cursor_monotone env file_ regex syslog from_addr to_addrs f n w :
  fs w file_ = Some f -> plain_file f = true -> n < length f ->
  set_line_no (diff_lines (fs w file_) (Z.of_nat n)) = inr (Z.of_nat (length f))
  /\ (Z.of_nat n <= Z.of_nat (length f))%Z
  /\ forall c,
       snd (watch_cycle env file_ regex syslog from_addr to_addrs 0
              (Z.of_nat n) w) = inr c ->
       (Z.of_nat n <= c)%Z.
Proof.
  intros Hf Hp Hn. rewrite Hf.
  destruct (diff_lines_growth f n Hp Hn) as [_ Hs].
  split; [exact Hs|]. split; [lia|].
  intros c. rewrite watch_cycle_eq. cbv zeta. rewrite Hf, Hs.
  destruct (base_verifier_sender _ _ _ _ _ _ _ w) as [w' [e|[]]]; cbn [snd];
    [discriminate|]. intros E. injection E as <-. lia.
Qed.

Lemma C3_cursor_monotone_witness :
  let w := world_of app_log three_lines in
  fs w app_log = Some three_lines /\ plain_file three_lines = true
  /\ 1 < length three_lines
  /\ set_line_no (diff_lines (fs w app_log) (Z.of_nat 1)) = inr 3%Z.
Proof.
  intros w.
  assert (H : 1 < length three_lines) by apply le_S, le_n.
  split; [reflexivity|]. split; [reflexivity|]. split; [exact H|].
  exact (proj1 (C3_cursor_monotone env_ok app_log re_ERROR true None None
                  three_lines 1 w eq_refl eq_refl H)).
Defined.

(** C4, as stated, fails: the file was read up to line 3, a write makes
    its last line longer, the diff after line 3 is empty, and the cursor
    is not left at 3. *)
Lemma C4_counterexample :
  let w := world_of app_log three_lines_grown in
  ~ (diff_lines (fs w app_log) 3 = [] ->
     snd (watch_cycle env_ok app_log re_ERROR true None None 0 3 w) = inr 3%Z).
Proof.
  intros w H. specialize (H eq_refl). vm_compute in H. discriminate H.
Qed.

(** C4 (amended): in the Advancing step of a cycle whose diff is not empty
    (the file, made of plain lines, holds a line beyond the cursor), the
    cursor is set to the maximum line number seen in that cycle's diff;
    the cycle returns it unless a sink raises. *)
Theorem C4_cursor_set_to_max env file_ regex syslog from_addr to_addrs f n w :
  fs w file_ = Some f -> plain_file f = true -> n < length f ->
  let lines := diff_lines (fs w file_) (Z.of_nat n) in
  let r := watch_cycle env file_ regex syslog from_addr to_addrs 0
             (Z.of_nat n) w in
  lines <> []
  /\ line_numbers lines = map Z.of_nat (seq (S n) (length f - n))
  /\ set_line_no lines = inr (max_line_number lines)
  /\ (snd r = inr (max_line_number lines)
      \/ exists e,
           snd r = inl e
           /\ snd (base_verifier_sender env lines syslog from_addr to_addrs
                     regex file_ w) = inl e).
Proof.
  intros Hf Hp Hn lines r. subst lines r. rewrite watch_cycle_eq. cbv zeta.
  rewrite Hf. destruct (diff_lines_growth f n Hp Hn) as [Hnum Hs].
  rewrite (max_line_number_growth f n Hp Hn), Hs.
  repeat split.
  - intros E. rewrite E in Hnum. apply Forall2_length in Hnum.
    rewrite length_seq in Hnum. cbn [length] in Hnum. lia.
  - now apply line_numbers_numbered.
  - destruct (base_verifier_sender _ _ _ _ _ _ _ w) as [w' [e|[]]]; cbn [snd];
      [right; now exists e | now left].
Qed.

Lemma C4_cursor_set_to_max_witness :
  let w := world_of app_log three_lines in
  fs w app_log = Some three_lines /\ plain_file three_lines = true
  /\ 1 < length three_lines
  /\ line_numbers (diff_lines (fs w app_log) (Z.of_nat 1)) = [2%Z; 3%Z]
  /\ set_line_no (diff_lines (fs w app_log) (Z.of_nat 1))
     = inr (max_line_number (diff_lines (fs w app_log) (Z.of_nat 1))).
Proof.
  intros w.
  assert (H : 1 < length three_lines) by apply le_S, le_n.
  pose proof (C4_cursor_set_to_max env_ok app_log re_ERROR true None None
                three_lines 1 w eq_refl eq_refl H) as (_ & Hn & Hs & _).
  split; [reflexivity|]. split; [reflexivity|]. split; [exact H|].
  split; [exact Hn | exact Hs].
Defined.

(** C9: a diffed line made of a number token and white space only, as nl
    renders a blank line, is skipped whatever the pattern: the records are
    those of the batch without it, and alone it raises no notification. *)
Theorem C9_number_only_line_skipped regex lead tok trail pre post
    env syslog from_addr to_addrs file_ w :
  forallb isspace lead = true -> forallb nonspace tok = true ->
  forallb isspace trail = true ->
  let line := lead ++ tok ++ trail in
  matched_lines regex (pre ++ line :: post) = matched_lines regex (pre ++ post)
  /\ matched_lines regex [line] = []
  /\ base_verifier_sender env [line] syslog from_addr to_addrs regex file_ w
     = (w, inr tt).
Proof.
  intros Hl Ht Hr line.
  assert (Hstep : forall d, match_line regex d line = d).
  { intros d. unfold match_line, line.
    destruct (split_maxsplit1_token_only lead tok trail Hl Ht Hr) as [E|E];
      now rewrite E. }
  assert (Hone : matched_lines regex [line] = []) by apply Hstep.
  repeat split.
  - unfold matched_lines. rewrite !fold_left_app. cbn [fold_left].
    now rewrite Hstep.
  - exact Hone.
  - now apply base_verifier_sender_nothing.
Qed.

Lemma C9_number_only_line_skipped_witness :
  let line := py "     2" ++ [TAB] in
  forallb isspace (py "     ") = true /\ forallb nonspace (py "2") = true
  /\ forallb isspace [TAB] = true
  /\ search re_empty [] = true
  /\ matched_lines re_empty [line] = [].
Proof.
  intros line. do 4 (split; [reflexivity|]).
  exact (proj1 (proj2 (C9_number_only_line_skipped re_empty (py "     ") (py "2")
                         [TAB] [] [] env_ok true None None app_log
                         (world_of app_log []) eq_refl eq_refl eq_refl))).
Defined.

(** What nl writes for a blank line is such a line once the final newline
    is gone. *)
Lemma blank_line_rendering k :
  nl_line k [] = (pad k ++ dec k ++ [TAB]) ++ [LF]
  /\ forallb isspace (pad k) = true /\ forallb nonspace (dec k) = true
  /\ forallb isspace [TAB] = true.
Proof.
  repeat split.
  - rewrite nl_line_eq. now norm_app.
  - apply pad_spaces.
  - apply dec_nonspace.
Qed.

(** C10: the text tested is the diffed line without its leading white
    space, its number token and the whole run of white space after the
    token; the line is recorded exactly when the pattern matches some
    slice of that text, wherever the slice starts and ends. *)
Theorem C10_unanchored_search regex lead tok ws c rest :
  forallb isspace lead = true ->
  tok <> [] -> forallb nonspace tok = true ->
  ws <> [] -> forallb isspace ws = true ->
  isspace c = false ->
  let line := lead ++ tok ++ ws ++ c :: rest in
  let text := c :: rest in
  split_maxsplit1 line = [tok; text]
  /\ ((exists i j, i <= j <= length text /\ match_span regex text i j = true)
      -> matched_lines regex [line] = [(tok, text)])
  /\ (~ (exists i j, i <= j <= length text /\ match_span regex text i j = true)
      -> matched_lines regex [line] = []).
Proof.
  intros Hl Hne Ht Hwne Hw Hc line text.
  pose proof (split_maxsplit1_two lead tok ws c rest Hl Hne Ht Hwne Hw Hc) as E.
  split; [exact E|].
  unfold matched_lines. cbn [fold_left]. unfold match_line. fold line in E.
  rewrite E. fold text. split; intros H.
  - apply search_spec in H. now rewrite H.
  - destruct (search regex text) eqn:Hs; [|reflexivity].
    apply search_spec in Hs. contradiction.
Qed.

Lemma C10_unanchored_search_witness :
  let line := py "     2" ++ [TAB] ++ py "  line2 ERROR boom" in
  let text := py "line2 ERROR boom" in
  matched_lines re_ERROR [line] = [(py "2", text)]
  /\ re_match re_ERROR text = false /\ fullmatch re_ERROR text = false.
Proof.
  intros line text. split; [|split; reflexivity].
  refine (proj1 (proj2 (C10_unanchored_search re_ERROR (py "     ") (py "2")
            ([TAB] ++ py "  ") "l"%char (py "ine2 ERROR boom")
            eq_refl _ eq_refl _ eq_refl eq_refl)) _); try discriminate.
  exists 6, 11. split; [|reflexivity]. split.
  - do 5 apply le_S. apply le_n.
  - cbn. do 5 apply le_S. apply le_n.
Defined.

Lemma checks_misconfigured syslog from_addr to_addrs :
  sinks_misconfigured syslog from_addr to_addrs = true ->
  exists msg,
    base_watcher_checks syslog from_addr to_addrs
    = inl (FileWatcherException msg).
Proof.
  unfold sinks_misconfigured, base_watcher_checks, check_input_combo.
  cbn [existsb id].
  destruct syslog, (truthy from_addr), (truthy to_addrs); cbn;
    intros H; try discriminate H; eauto.
Qed.

Lemma checks_pass syslog from_addr to_addrs :
  sinks_misconfigured syslog from_addr to_addrs = false ->
  base_watcher_checks syslog from_addr to_addrs = inr true.
Proof.
  unfold sinks_misconfigured, base_watcher_checks, check_input_combo.
  cbn [existsb id].
  destruct syslog, (truthy from_addr), (truthy to_addrs); cbn;
    intros H; try discriminate H; reflexivity.
Qed.

(** C5, as stated, fails: with no sink on the command line the process
    does not end with a non-zero status. *)
Lemma C5_counterexample :
  ~ (exists st,
       exit_status (snd (main compile_literal env_ok args_no_sink
                           (world_of app_log three_lines))) = Some st
       /\ st <> 0%Z).
Proof.
  intros (st & H & Hst). vm_compute in H. injection H as <-. now apply Hst.
Qed.

(** C5 (amended): an invalid pattern ends the process with exit status 1
    before any worker exists.  With no sink, or with only one of the
    from-address and the to-addresses, every worker raises
    FileWatcherException before its watch loop, whatever the file and
    whatever happens to it, without reading a file or calling a sink; the
    error callback logs the message and, when its logger call returns,
    [main] returns False and the process ends with exit status 0. *)
Theorem C5_configuration_errors compile env args w :
  arg_watch_files args <> [] ->
  let r := main compile env args w in
  (forall e, compile (arg_regex args) = inl e ->
     r = (w, inl e) /\ exit_status (snd r) = Some 1%Z)
  /\ (forall regex,
        compile (arg_regex args) = inr regex ->
        sinks_misconfigured (arg_syslog args) (arg_from_addr args)
          (arg_to_addrs args) = true ->
        exists msg,
          (forall file_ ticks w',
             base_watcher file_ regex (arg_syslog args) (arg_from_addr args)
               (arg_to_addrs args) ticks w'
             = (w', inl (FileWatcherException msg)))
          /\ (forall rc,
                run_logger env (logger_command (py "filewatcher: " ++ msg))
                = inr rc ->
                r = (add_events w
                       [EvLogger (logger_command (py "filewatcher: " ++ msg))],
                     inr (Returned false))
                /\ exit_status (snd r) = Some 0%Z)).
Proof.
  intros Hfiles r. subst r. unfold main, bind, lift. split.
  - intros e He. rewrite He. now split.
  - intros regex Hre Hbad. rewrite Hre.
    destruct (checks_misconfigured _ _ _ Hbad) as (msg & Hmsg).
    exists msg. split.
    + intros file_ ticks w'. unfold base_watcher, bind, lift. now rewrite Hmsg.
    + intros rc Hrc. destruct (arg_watch_files args) as [|f fs']; [congruence|].
      rewrite Hmsg. unfold mp_error_callback. rewrite log_syslog_run.
      cbn [exn_str]. rewrite Hrc. now split.
Qed.

Lemma C5_configuration_errors_witness :
  let w := world_of app_log three_lines in
  arg_watch_files args_no_sink <> []
  /\ exit_status (snd (main compile_refuses env_ok args_no_sink w)) = Some 1%Z
  /\ exit_status (snd (main compile_literal env_ok args_no_sink w)) = Some 0%Z.
Proof.
  intros w.
  assert (H : arg_watch_files args_no_sink <> []) by discriminate.
  split; [exact H|]. split.
  - exact (proj2 (proj1 (C5_configuration_errors compile_refuses env_ok
                           args_no_sink w H) re_error eq_refl)).
  - destruct (proj2 (C5_configuration_errors compile_literal env_ok
                       args_no_sink w H) (literal (py "ERROR")) eq_refl eq_refl)
      as (msg & _ & Hmain).
    exact (proj2 (Hmain 0%Z eq_refl)).
Defined.

(** C6, as stated, fails: a matching line arrives, nothing listens on
    port 25, and the cycle does not return to the loop. *)
Lemma C6_counterexample :
  let w := world_of app_log [py "ERROR boom"] in
  ~ (exists c,
       snd (watch_cycle env_no_relay app_log re_ERROR true (Some (py "a@x"))
              (Some [py "b@y"]) 0 0 w) = inr c).
Proof.
  intros w (c & H). vm_compute in H. discriminate H.
Qed.

(** C6 (amended): with both sinks configured and a non-empty batch of
    matches, the logger is run first and the mail is tried whatever exit
    status the logger returns; when the transport takes the message the
    loop goes on to the next cycle.  An exception raised by a sink is not
    caught and ends the loop: a logger call that raises (the mail is then
    not tried), a refused connection, a failed send. *)
Theorem C6_sink_failures file_ regex c a to_addrs t ticks line_no line_no' w :
  let env := tick_env t in
  let w1 := fst (apply_writes (tick_writes t) w) in
  let lines := diff_lines (fs w1 file_) line_no in
  let d := matched_lines regex lines in
  let cmd := logger_command (syslog_message file_ d) in
  let msg := mail_message (c :: a) to_addrs (mail_subject regex file_)
               (mail_body regex file_ d) in
  tick_inotify t = 0%Z ->
  d <> [] ->
  set_line_no lines = inr line_no' ->
  watch_loop file_ regex true (Some (c :: a)) (Some to_addrs) (t :: ticks)
    line_no w
  = match run_logger env cmd with
    | inl e => (w1, inl e)
    | inr _ =>
        match smtp_connect env with
        | Some _ => (add_events w1 [EvLogger cmd], inl UnboundLocalError)
        | None =>
            match smtp_send env (c :: a) to_addrs msg with
            | Some e =>
                (add_events w1 [EvLogger cmd; EvSmtpConnect; EvSmtpClose],
                 inl e)
            | None =>
                watch_loop file_ regex true (Some (c :: a)) (Some to_addrs)
                  ticks line_no'
                  (add_events w1
                     [EvLogger cmd; EvSmtpConnect;
                      EvSmtpSendmail (c :: a) to_addrs msg; EvSmtpClose])
            end
        end
    end.
Proof.
  intros env w1 lines d cmd msg Hin Hd Hs.
  rewrite watch_loop_step, Hin, watch_cycle_eq. cbv zeta.
  fold w1. fold lines. rewrite Hs.
  rewrite base_verifier_sender_both by exact Hd. cbv zeta.
  fold d. fold cmd. fold env.
  destruct (run_logger env cmd) as [e|rc]; [reflexivity|].
  rewrite send_mail_run. cbv zeta. fold msg.
  destruct (smtp_connect env); [reflexivity|].
  destruct (smtp_send env (c :: a) to_addrs msg);
    now rewrite add_events_app.
Qed.

Lemma C6_sink_failures_witness :
  let t := mkTick [(app_log, Some [py "ERROR boom"])] 0 env_logger_fails in
  let r := watch_loop app_log re_ERROR true (Some ("a"%char :: py "@x"))
             (Some [py "b@y"]) [t] 0 (world_of app_log []) in
  tick_inotify t = 0%Z
  /\ snd r = inr 1%Z
  /\ length (events (fst r)) = 4.
Proof.
  intros t r. split; [reflexivity|]. subst r.
  rewrite (C6_sink_failures app_log re_ERROR "a"%char (py "@x") [py "b@y"] t []
             0 1 (world_of app_log []) eq_refl ltac:(discriminate) eq_refl).
  split; reflexivity.
Defined.

(** C7: whatever the transport does, [send_mail] leaves no connection
    open: a connection that was made is closed last, after a send that
    worked and after one that failed; when the connection cannot be made
    there is none to release and UnboundLocalError is raised. *)
Theorem C7_connection_released env from_addr to_addrs subject body w :
  let r := send_mail env from_addr to_addrs subject body w in
  open_conns (fst r) = open_conns w
  /\ match to_addrs, smtp_connect env with
     | Some _, None =>
         exists mid,
           events (fst r) = events w ++ EvSmtpConnect :: mid ++ [EvSmtpClose]
     | Some _, Some _ => events (fst r) = events w /\ snd r = inl UnboundLocalError
     | None, _ => events (fst r) = events w /\ snd r = inl TypeError
     end.
Proof.
  destruct to_addrs as [tos|]; cbv zeta.
  - rewrite send_mail_run. cbv zeta.
    destruct (smtp_connect env); [now split|].
    destruct (smtp_send env from_addr tos _); (split; [reflexivity|]).
    + now exists [].
    + now eexists [_].
  - now split.
Qed.

(* --------------------------------------------------------------------- *)
(** * The dictionary of matches, whatever the batch                       *)
(* --------------------------------------------------------------------- *)

Module DictFacts.
Import PyStrFacts MatchFacts.

Lemma od_set_in k v d kv : In kv (od_set k v d) -> kv = (k, v) \/ In kv d.
Proof.
  induction d as [|[k' v'] d IH]; simpl.
  - intros [<-|[]]. now left.
  - destruct (str_eqb k k').
    + intros [<-|H]; [now left | right; now right].
    + intros [<-|H]; [right; now left|].
      destruct (IH H) as [E|E]; [now left | right; now right].
Qed.

Lemma od_set_self k v d :
  NoDup (map fst d) -> In (k, v) (od_set k v d).
Proof.
  induction d as [|[k' v'] d IH]; simpl; intros H; [now left|].
  destruct (str_eqb k k'); [now left|].
  right. apply IH. now inversion H.
Qed.

Lemma od_set_other k v d k' v' :
  k' <> k -> In (k', v') d -> In (k', v') (od_set k v d).
Proof.
  intros Hne. induction d as [|[k0 v0] d IH]; simpl; [tauto|].
  destruct (str_eqb k k0) eqn:E.
  - apply str_eqb_eq in E. subst k0.
    intros [H|H]; [injection H as -> ->; congruence | now right].
  - intros [H|H]; [now left | right; now apply IH].
Qed.

Lemma od_set_keys k v d k' :
  In k' (map fst (od_set k v d)) <-> k' = k \/ In k' (map fst d).
Proof.
  induction d as [|[k0 v0] d IH]; simpl.
  - intuition.
  - destruct (str_eqb k k0) eqn:E; simpl.
    + apply str_eqb_eq in E. subst k0. intuition.
    + rewrite IH. intuition.
Qed.

Lemma od_set_NoDup k v d :
  NoDup (map fst d) -> NoDup (map fst (od_set k v d)).
Proof.
  induction d as [|[k0 v0] d IH]; simpl; intros H.
  - repeat constructor. intros [].
  - inversion H as [|? ? Hnotin Hnd]. subst.
    destruct (str_eqb k k0) eqn:E; simpl.
    + apply str_eqb_eq in E. subst k0. now constructor.
    + constructor; [|now apply IH].
      rewrite od_set_keys. intros [->|Hin]; [|contradiction].
      now rewrite str_eqb_refl in E.
Qed.

Lemma matched_lines_snoc regex pre l :
  matched_lines regex (pre ++ [l]) = match_line regex (matched_lines regex pre) l.
Proof. unfold matched_lines. now rewrite fold_left_app. Qed.

(** What one turn of the loop does to the dictionary. *)
Lemma match_line_cases regex d l :
  (match_line regex d l = d
   /\ ~ exists k t, matching_line regex k t l)
  \/ exists k t, matching_line regex k t l
                 /\ match_line regex d l = od_set k t d.
Proof.
  unfold match_line, matching_line.
  destruct (split_maxsplit1 l) as [|k [|t [|x rest]]];
    try (left; split; [reflexivity|]; intros (k' & t' & E & _); discriminate E).
  destruct (search regex t) eqn:Hs.
  - right. now exists k, t.
  - left. split; [reflexivity|]. intros (k' & t' & E & Hs').
    injection E as -> ->. congruence.
Qed.

Lemma matched_lines_NoDup regex lines :
  NoDup (map fst (matched_lines regex lines)).
Proof.
  induction lines as [|l pre IH] using rev_ind; [constructor|].
  rewrite matched_lines_snoc.
  destruct (match_line_cases regex (matched_lines regex pre) l)
    as [[-> _] | (k & t & _ & ->)]; [exact IH | now apply od_set_NoDup].
Qed.

Lemma matched_lines_sound regex lines k t :
  In (k, t) (matched_lines regex lines) ->
  exists line, In line lines /\ matching_line regex k t line.
Proof.
  induction lines as [|l pre IH] using rev_ind; [intros []|].
  rewrite matched_lines_snoc.
  destruct (match_line_cases regex (matched_lines regex pre) l)
    as [[-> _] | (k0 & t0 & Hm & ->)]; intros H.
  - destruct (IH H) as (line & Hin & Hl). exists line.
    split; [apply in_or_app; now left | exact Hl].
  - apply od_set_in in H as [E|H].
    + injection E as -> ->. exists l. split; [apply in_or_app; right; now left|].
      exact Hm.
    + destruct (IH H) as (line & Hin & Hl). exists line.
      split; [apply in_or_app; now left | exact Hl].
Qed.

Lemma matched_lines_keys regex lines k :
  In k (map fst (matched_lines regex lines))
  <-> exists line t, In line lines /\ matching_line regex k t line.
Proof.
  induction lines as [|l pre IH] using rev_ind.
  - split; [intros [] | intros (line & t & [] & _)].
  - rewrite matched_lines_snoc.
    destruct (match_line_cases regex (matched_lines regex pre) l)
      as [[-> Hno] | (k0 & t0 & Hm & ->)].
    + rewrite IH. split.
      * intros (line & t & Hin & Hl). exists line, t.
        split; [apply in_or_app; now left | exact Hl].
      * intros (line & t & Hin & Hl). apply in_app_or in Hin as [Hin|[<-|[]]].
        -- now exists line, t.
        -- exfalso. apply Hno. now exists k, t.
    + rewrite od_set_keys, IH. split.
      * intros [->|(line & t & Hin & Hl)].
        -- exists l, t0. split; [apply in_or_app; right; now left | exact Hm].
        -- exists line, t. split; [apply in_or_app; now left | exact Hl].
      * intros (line & t & Hin & Hl). apply in_app_or in Hin as [Hin|[<-|[]]].
        -- right. now exists line, t.
        -- left. destruct Hm as [E1 _], Hl as [E2 _]. congruence.
Qed.

Lemma match_line_keeps regex d l k t :
  In (k, t) d ->
  (forall t', matching_line regex k t' l -> False) ->
  In (k, t) (match_line regex d l).
Proof.
  intros Hin Hno.
  destruct (match_line_cases regex d l) as [[-> _] | (k0 & t0 & Hm & ->)];
    [exact Hin|].
  apply od_set_other; [|exact Hin].
  intros ->. now apply (Hno t0).
Qed.

Lemma fold_match_line_keeps regex post : forall d k t,
  In (k, t) d ->
  (forall l t', In l post -> matching_line regex k t' l -> False) ->
  In (k, t) (fold_left (match_line regex) post d).
Proof.
  induction post as [|l post IH]; intros d k t Hin Hno; [exact Hin|].
  cbn [fold_left]. apply IH.
  - apply match_line_keeps; [exact Hin|].
    intros t' Hm. apply (Hno l t'); [now left | exact Hm].
  - intros l' t' Hl' Hm. apply (Hno l' t'); [now right | exact Hm].
Qed.

End DictFacts.

(* --------------------------------------------------------------------- *)
(** * Further properties of the code                                      *)
(* --------------------------------------------------------------------- *)

Import DictFacts.

(** X1: every record of the dictionary built by [base_verifier_sender]
    comes from a line of the batch that splits into that number token and
    that text and in whose text the pattern is found; this holds for
    every batch, also one with repeated number tokens. *)
Theorem X1_no_false_positive regex new_lines k t :
  In (k, t) (matched_lines regex new_lines) ->
  exists line,
    In line new_lines /\ split_maxsplit1 line = [k; t]
    /\ search regex t = true.
Proof.
  intros H. destruct (matched_lines_sound regex new_lines k t H)
    as (line & Hin & Hsp & Hs). now exists line.
Qed.

Lemma X1_no_false_positive_witness :
  let batch := [py "7 ERROR a"; py "8 fine"] in
  In (py "7", py "ERROR a") (matched_lines re_ERROR batch)
  /\ exists line,
       In line batch /\ split_maxsplit1 line = [py "7"; py "ERROR a"]
       /\ search re_ERROR (py "ERROR a") = true.
Proof.
  intros batch.
  assert (H : In (py "7", py "ERROR a") (matched_lines re_ERROR batch))
    by (left; reflexivity).
  split; [exact H|].
  exact (X1_no_false_positive re_ERROR batch (py "7") (py "ERROR a") H).
Defined.

(** X2: the dictionary never holds two records under one number token,
    and its keys are exactly the number tokens of the lines of the batch
    that split in two and match. *)
Theorem X2_keys_of_matches regex new_lines :
  NoDup (map fst (matched_lines regex new_lines))
  /\ forall k,
       In k (map fst (matched_lines regex new_lines))
       <-> exists line t,
             In line new_lines /\ split_maxsplit1 line = [k; t]
             /\ search regex t = true.
Proof.
  split; [apply matched_lines_NoDup|].
  intros k. rewrite matched_lines_keys. unfold matching_line.
  split; intros (line & t & H); exists line, t; exact H.
Qed.

(** X3: when several lines of a batch carry the same number token, the
    record under that token holds the text of the last of them that
    matches: a matching line is recorded with its own text as soon as no
    later line with the same token matches. *)
Theorem X3_last_match_wins regex pre line post k t :
  split_maxsplit1 line = [k; t] ->
  search regex t = true ->
  (forall l t', In l post -> split_maxsplit1 l = [k; t'] ->
                search regex t' = false) ->
  In (k, t) (matched_lines regex (pre ++ line :: post)).
Proof.
  intros Hsp Hs Hlater. unfold matched_lines.
  rewrite fold_left_app. cbn [fold_left].
  apply fold_match_line_keeps.
  - unfold match_line. rewrite Hsp, Hs.
    apply od_set_self. apply matched_lines_NoDup.
  - intros l t' Hl [Hsp' Hs']. rewrite (Hlater l t' Hl Hsp') in Hs'.
    discriminate Hs'.
Qed.

Lemma X3_last_match_wins_witness :
  let batch := [py "7 ERROR a"; py "7 ERROR b"; py "7 fine"] in
  matched_lines re_ERROR batch = [(py "7", py "ERROR b")]
  /\ In (py "7", py "ERROR b") (matched_lines re_ERROR batch).
Proof.
  intros batch. split; [reflexivity|].
  refine (X3_last_match_wins re_ERROR [py "7 ERROR a"] (py "7 ERROR b")
            [py "7 fine"] (py "7") (py "ERROR b") eq_refl eq_refl _).
  intros l t' [<-|[]] E. injection E as <-. reflexivity.
Defined.

(* --------------------------------------------------------------------- *)
(** * From the lines of the file to the records                           *)
(* --------------------------------------------------------------------- *)

Module FileFacts.
Import PyStrFacts DecFacts DiffFacts CycleFacts WatcherFacts MatchFacts.

Lemma lstrip_tab x : lstrip (TAB :: x) = lstrip x.
Proof. reflexivity. Qed.

Lemma lstrip_line_tail l : lstrip (line_tail l) = strip l.
Proof.
  unfold line_tail. change (TAB :: l ++ [LF]) with ((TAB :: l) ++ [LF]).
  rewrite rstrip_snoc_space by reflexivity. unfold strip. cbn [rstrip].
  destruct (rstrip l); reflexivity.
Qed.

Lemma split_maxsplit1_dec lead k t :
  forallb isspace lead = true ->
  hd_error t = None \/ (exists c, hd_error t = Some c /\ nonspace c = false) ->
  split_maxsplit1 (lead ++ dec k ++ t)
  = match lstrip t with
    | [] => [dec k]
    | r => [dec k; r]
    end.
Proof.
  intros Hl Ht. unfold split_maxsplit1. rewrite lstrip_spaces by exact Hl.
  rewrite lstrip_dec.
  pose proof (dec_nonspace k) as H. pose proof (dec_nonempty k) as N.
  destruct (dec k) as [|c d]; [congruence|].
  simpl in H. apply andb_true_iff in H as [_ Hd]. cbn [app].
  now rewrite (takewhile_all nonspace d t Hd Ht), (dropwhile_all nonspace d t Hd Ht).
Qed.

Lemma splits_as_body lead k x :
  forallb isspace lead = true ->
  splits_as (lead ++ dec k ++ TAB :: x) (k, lstrip x).
Proof.
  intros Hl. unfold splits_as. cbn [fst snd].
  rewrite split_maxsplit1_dec; [now rewrite lstrip_tab | exact Hl |].
  right. now exists TAB.
Qed.

Lemma splits_as_last lead m l :
  forallb isspace lead = true ->
  splits_as (lead ++ dec m ++ line_tail l) (m, strip l).
Proof.
  intros Hl. unfold splits_as. cbn [fst snd].
  rewrite split_maxsplit1_dec; [now rewrite lstrip_line_tail | exact Hl |].
  apply line_tail_head.
Qed.

Lemma tested_texts_snoc g : forall k l,
  tested_texts k (g ++ [l])
  = combine (seq k (length g)) (map lstrip g) ++ [(k + length g, strip l)].
Proof.
  induction g as [|x g IH]; intros k l.
  - cbn. now rewrite Nat.add_0_r.
  - cbn [app tested_texts length seq map combine].
    destruct (g ++ [l]) as [|y r] eqn:E.
    + apply app_eq_nil in E as [_ E]. discriminate E.
    + rewrite <- E, IH. now replace (S k + length g) with (k + S (length g)) by lia.
Qed.

Lemma splits_as_bodies g : forall k,
  Forall2 splits_as (bodies k g) (combine (seq k (length g)) (map lstrip g)).
Proof.
  induction g as [|x g IH]; intros k; cbn [bodies length seq map combine];
    constructor.
  - apply splits_as_body, pad_spaces.
  - apply IH.
Qed.

(** The batch read from a non-empty run of plain lines, line by line. *)
Lemma diff_explicit g l k :
  forallb (forallb nobreak) (g ++ [l]) = true ->
  splitlines (strip (concat (nl_from k (g ++ [l]))))
  = match g with
    | [] => [dec k ++ line_tail l]
    | x :: g' =>
        (dec k ++ TAB :: x)
        :: bodies (S k) g'
        ++ [pad (k + length g) ++ dec (k + length g) ++ line_tail l]
    end.
Proof.
  intros Hplain.
  rewrite forallb_app in Hplain. apply andb_true_iff in Hplain as [Hg Hl].
  cbn [forallb] in Hl. rewrite andb_true_r in Hl.
  rewrite nl_from_snoc, concat_app. cbn [concat]. rewrite app_nil_r.
  unfold strip. rewrite rstrip_rendered.
  change (@length str g) with (@length (list ascii) g).
  assert (Hnb : forall m, forallb nobreak (pad m ++ dec m ++ line_tail l) = true).
  { intros m. rewrite !forallb_app, dec_nobreak, (line_tail_nobreak l Hl).
    unfold pad. induction (6 - length (dec m)); simpl; auto. }
  assert (Hne : forall m, pad m ++ dec m ++ line_tail l <> []).
  { intros m E. apply app_eq_nil in E as [_ E]. apply app_eq_nil in E as [E _].
    now apply dec_nonempty in E. }
  destruct g as [|x g'].
  - cbn [nl_from concat app length]. rewrite Nat.add_0_r, lstrip_last_line.
    apply splitlines_one.
    + intros E. apply app_eq_nil in E as [E _]. now apply dec_nonempty in E.
    + rewrite forallb_app, dec_nobreak. now apply line_tail_nobreak.
  - simpl in Hg. apply andb_true_iff in Hg as [Hx Hg].
    cbn [nl_from concat].
    set (m := k + length (x :: g')).
    assert (E : (nl_line k x ++ concat (nl_from (S k) g'))
                  ++ pad m ++ dec m ++ line_tail l
                = pad k ++ (dec k ++ TAB :: x)
                  ++ LF :: (concat (nl_from (S k) g')
                            ++ pad m ++ dec m ++ line_tail l))
      by (rewrite nl_line_eq; now norm_app).
    rewrite E, lstrip_spaces by apply pad_spaces.
    rewrite <- app_assoc, lstrip_dec, app_assoc.
    rewrite splitlines_body
      by (rewrite forallb_app, dec_nobreak; cbn [forallb]; now rewrite Hx).
    now rewrite splitlines_bodies by auto.
Qed.

Lemma diff_splits_as g k :
  g <> [] -> forallb (forallb nobreak) g = true ->
  Forall2 splits_as (splitlines (strip (concat (nl_from k g))))
    (tested_texts k g).
Proof.
  intros Hg Hplain. destruct (exists_last Hg) as (g' & l & ->).
  rewrite diff_explicit by exact Hplain. rewrite tested_texts_snoc.
  destruct g' as [|x g'].
  - cbn [length seq map combine app]. constructor; [|constructor].
    rewrite Nat.add_0_r. apply (splits_as_last [] k l). reflexivity.
  - cbn [length seq map combine app]. constructor.
    + apply (splits_as_body [] k x). reflexivity.
    + apply Forall2_app; [apply splits_as_bodies|].
      constructor; [|constructor].
      replace (k + S (length g')) with (k + length (x :: g')) by reflexivity.
      apply splits_as_last, pad_spaces.
Qed.

Lemma records_splits_as regex ys : forall kts,
  Forall2 splits_as ys kts -> records regex ys = flat_map (report regex) kts.
Proof.
  induction 1 as [|y [k t] ys kts Hy _ IH]; [reflexivity|].
  unfold records in *. cbn [flat_map]. rewrite IH. f_equal.
  unfold splits_as in Hy. cbn [fst snd] in Hy. rewrite Hy.
  unfold report. cbn [fst snd]. now destruct t.
Qed.

End FileFacts.

Import FileFacts.

(** X4: for a file of plain lines that holds a line beyond the cursor,
    the records of the cycle are, in file order, those of the lines after
    the cursor whose text is not empty once its leading white space is
    removed (for the last line of the file its trailing white space too)
    and in which the pattern is found; each record carries the number of
    the line in the file and that text. *)
Theorem X4_records_of_file regex f n :
  plain_file f = true -> n < length f ->
  matched_lines regex (diff_lines (Some f) (Z.of_nat n)) = reported regex n f.
Proof.
  intros Hp Hn. rewrite (diff_lines_records regex f n Hp Hn).
  unfold reported, diff_lines, numbered_tail. rewrite tail_from_nl_ba.
  apply records_splits_as, diff_splits_as.
  - intros E. apply (f_equal (@length _)) in E. rewrite length_skipn in E.
    simpl in E. lia.
  - now apply forallb_skipn, plain_file_nobreak.
Qed.

Lemma X4_records_of_file_witness :
  let f : File :=
    [py "old ERROR"; py "  ok"; []; py "   ERROR x  "; py " ERROR y  "] in
  plain_file f = true /\ 1 < length f
  /\ matched_lines re_ERROR (diff_lines (Some f) (Z.of_nat 1))
     = [(py "4", py "ERROR x  "); (py "5", py "ERROR y")].
Proof.
  intros f.
  assert (H : 1 < length f) by (do 3 apply le_S; apply le_n).
  split; [reflexivity|]. split; [exact H|].
  rewrite (X4_records_of_file re_ERROR f 1 eq_refl H). reflexivity.
Defined.

(* --------------------------------------------------------------------- *)
(** * The cursor, whatever the child prints                               *)
(* --------------------------------------------------------------------- *)

Module CursorFacts.
Import PyStrFacts DecFacts WatcherFacts SinkFacts.

Lemma rstrip_last s :
  rstrip s = [] \/ exists t c, rstrip s = t ++ [c] /\ isspace c = false.
Proof.
  induction s as [|a s IH]; [now left|]. cbn [rstrip].
  destruct (rstrip s) as [|b r] eqn:E.
  - destruct (isspace a) eqn:Ha; [now left|]. right. now exists [], a.
  - right. destruct IH as [IH | (t & c & Ht & Hc)]; [discriminate IH|].
    exists (a :: t), c. rewrite Ht. now split.
Qed.

Lemma lstrip_keeps_last t c :
  isspace c = false -> exists t', lstrip (t ++ [c]) = t' ++ [c].
Proof.
  intros Hc. induction t as [|a t (t' & IH)].
  - exists []. now apply lstrip_head.
  - unfold lstrip in *. cbn [app dropwhile]. destruct (isspace a).
    + now exists t'.
    + now exists (a :: t).
Qed.

Lemma strip_last s :
  strip s = [] \/ exists t c, strip s = t ++ [c] /\ isspace c = false.
Proof.
  unfold strip. destruct (rstrip_last s) as [-> | (t & c & -> & Hc)];
    [now left|].
  right. destruct (lstrip_keeps_last t c Hc) as (t' & ->). now exists t', c.
Qed.

Lemma splitlines_last_char_aux n : forall s c,
  length s <= n -> islinebreak c = false ->
  exists pre l, splitlines (s ++ [c]) = pre ++ [l ++ [c]].
Proof.
  induction n as [|n IH]; intros s c Hn Hc.
  - destruct s; [|simpl in Hn; lia]. exists [], []. cbn. now rewrite Hc.
  - destruct s as [|a s].
    + exists [], []. cbn. now rewrite Hc.
    + simpl in Hn. cbn [app splitlines].
      destruct (islinebreak a) eqn:Ha.
      * destruct (Ascii.eqb a CR).
        -- destruct s as [|d s].
           ++ cbn [app]. destruct (Ascii.eqb_spec c LF) as [->|_].
              ** discriminate Hc.
              ** exists [[]], []. cbn. now rewrite Hc.
           ++ cbn [app]. destruct (Ascii.eqb d LF).
              ** destruct (IH s c ltac:(simpl in Hn; lia) Hc) as (pre & l & ->).
                 now exists ([] :: pre), l.
              ** destruct (IH (d :: s) c ltac:(simpl in *; lia) Hc) as (pre & l & E).
                 cbn [app] in E. rewrite E. now exists ([] :: pre), l.
        -- destruct (IH s c ltac:(lia) Hc) as (pre & l & ->).
           now exists ([] :: pre), l.
      * destruct (IH s c ltac:(lia) Hc) as (pre & l & ->).
        destruct pre as [|p pre]; cbn [app].
        -- now exists [], (a :: l).
        -- now exists ((a :: p) :: pre), l.
Qed.

Lemma splitlines_last_char s c :
  islinebreak c = false ->
  exists pre l, splitlines (s ++ [c]) = pre ++ [l ++ [c]].
Proof. now apply (splitlines_last_char_aux (length s)). Qed.

Lemma nonspace_nobreak c : isspace c = false -> islinebreak c = false.
Proof.
  intros H. destruct (islinebreak c) eqn:E; [|reflexivity].
  apply islinebreak_isspace in E. congruence.
Qed.

(** The lines of a stripped text: none, or a last line with a first
    word. *)
Lemma last_line_has_word s :
  splitlines (strip s) = []
  \/ exists pre y tok rest,
       splitlines (strip s) = pre ++ [y] /\ split y = tok :: rest.
Proof.
  destruct (strip_last s) as [-> | (t & c & -> & Hc)]; [now left|].
  right. destruct (splitlines_last_char t c (nonspace_nobreak c Hc))
    as (pre & l & ->).
  destruct (lstrip_keeps_last l c Hc) as (t' & E).
  exists pre, (l ++ [c]). unfold split. cbn [split_words]. rewrite E.
  destruct t' as [|a t']; cbn [app]; eauto.
Qed.

Lemma set_line_no_raises new_lines e :
  set_line_no new_lines = inl e -> e = ValueError.
Proof.
  unfold set_line_no. destruct (rev new_lines) as [|l r]; [discriminate|].
  destruct (split l) as [|tok rest]; [discriminate|].
  destruct (int tok); [discriminate|]. now intros [= <-].
Qed.

Lemma diff_lines_unreadable line_no : diff_lines None line_no = [].
Proof. reflexivity. Qed.

(** [base_verifier_sender], sink by sink. *)
Lemma base_verifier_sender_eq env new_lines syslog from_addr to_addrs
    regex file_ w :
  base_verifier_sender env new_lines syslog from_addr to_addrs regex file_ w
  = match matched_lines regex new_lines with
    | [] => (w, inr tt)
    | kv :: d' =>
        let d := kv :: d' in
        let mail :=
          if truthy from_addr
          then send_mail env match from_addr with Some a => a | None => [] end
                 to_addrs (mail_subject regex file_) (mail_body regex file_ d)
          else ret tt in
        if syslog then
          match run_logger env (logger_command (syslog_message file_ d)) with
          | inl e => (w, inl e)
          | inr _ =>
              mail (add_events w
                      [EvLogger (logger_command (syslog_message file_ d))])
          end
        else mail w
    end.
Proof.
  unfold base_verifier_sender.
  destruct (matched_lines regex new_lines) as [|kv d]; [reflexivity|].
  cbv zeta. destruct syslog; unfold bind, ret; [|reflexivity].
  rewrite log_syslog_run. now destruct (run_logger env _).
Qed.

End CursorFacts.

Import CursorFacts.

(** X5: whatever the file holds and wherever the cursor stands, the step
    that sets the cursor either meets an empty batch and answers 1, or
    finds a first word on the last line of the batch and answers the
    integer that word denotes, raising ValueError when it denotes none;
    the output of the child being stripped, a last line without a word
    cannot occur. *)
Theorem X5_cursor_of_any_batch content line_no :
  let lines := diff_lines content line_no in
  (lines = [] /\ set_line_no lines = inr 1%Z)
  \/ exists pre y tok rest,
       lines = pre ++ [y] /\ split y = tok :: rest
       /\ set_line_no lines = match int tok with
                              | Some n => inr n
                              | None => inl ValueError
                              end.
Proof.
  cbv zeta. unfold diff_lines.
  destruct (last_line_has_word (numbered_tail content (line_no + 1)))
    as [E | (pre & y & tok & rest & E & Hy)]; rewrite E.
  - now left.
  - right. exists pre, y, tok, rest. repeat split; [exact Hy|].
    unfold set_line_no. rewrite rev_app_distr. cbn [rev app]. now rewrite Hy.
Qed.

(** X6: when the first word of the last line of the batch is no integer,
    the ValueError is not caught: the loop ends in that cycle, before
    [base_verifier_sender] is called, so that no sink sees the batch even
    if lines of it match. *)
Theorem X6_bad_number_ends_loop file_ regex syslog from_addr to_addrs
    t ticks line_no e w :
  let w1 := fst (apply_writes (tick_writes t) w) in
  tick_inotify t = 0%Z ->
  set_line_no (diff_lines (fs w1 file_) line_no) = inl e ->
  watch_loop file_ regex syslog from_addr to_addrs (t :: ticks) line_no w
  = (w1, inl ValueError).
Proof.
  intros w1 Hin Hs. rewrite watch_loop_step, Hin, watch_cycle_eq. cbv zeta.
  fold w1. rewrite Hs. now rewrite (set_line_no_raises _ e Hs).
Qed.

Lemma X6_bad_number_ends_loop_witness :
  let f : File := [py "x" ++ [FF] ++ py "ERROR y"] in
  let t := mkTick [(app_log, Some f)] 0 env_ok in
  let r := watch_loop app_log re_ERROR true None None [t] 0
             (world_of app_log []) in
  diff_lines (Some f) 0 = [py "1" ++ [TAB] ++ py "x"; py "ERROR y"]
  /\ snd r = inl ValueError /\ events (fst r) = [].
Proof.
  intros f t r. split; [reflexivity|]. subst r.
  rewrite (X6_bad_number_ends_loop app_log re_ERROR true None None t [] 0
             ValueError (world_of app_log []) eq_refl eq_refl).
  split; reflexivity.
Defined.

(** X7: when the file cannot be read, or holds no line beyond the
    cursor, the cycle calls no sink, leaves the world as it is and goes
    on with the cursor at 1. *)
Theorem X7_nothing_to_read env file_ regex syslog from_addr to_addrs n w :
  fs w file_ = None \/ (exists f, fs w file_ = Some f /\ length f <= n) ->
  watch_cycle env file_ regex syslog from_addr to_addrs 0 (Z.of_nat n) w
  = (w, inr 1%Z).
Proof.
  intros H. rewrite watch_cycle_eq. cbv zeta.
  assert (E : diff_lines (fs w file_) (Z.of_nat n) = []).
  { destruct H as [-> | (f & -> & Hn)]; [reflexivity|].
    now apply diff_lines_nothing_new. }
  rewrite E. cbn [set_line_no rev].
  now rewrite base_verifier_sender_nothing.
Qed.

Lemma X7_nothing_to_read_witness :
  let w := world_of app_log three_lines in
  fs w (py "/var/log/gone") = None
  /\ watch_cycle env_no_relay (py "/var/log/gone") re_empty true
       (Some (py "a@x")) (Some [py "b@y"]) 0 (Z.of_nat 3) w = (w, inr 1%Z).
Proof.
  intros w. split; [reflexivity|].
  exact (X7_nothing_to_read env_no_relay (py "/var/log/gone") re_empty true
           (Some (py "a@x")) (Some [py "b@y"]) 3 w (or_introl eq_refl)).
Defined.

Module LoopFacts.
Import PyStrFacts WatcherFacts SinkFacts.

Lemma last_cons_default {A} (l : list A) : forall a d, last (a :: l) d = last l a.
Proof.
  induction l as [|b l IH]; intros a d; [reflexivity|].
  change (last (a :: b :: l) d) with (last (b :: l) d).
  now rewrite !IH.
Qed.

Lemma checks_pass_pair syslog from_addr to_addrs :
  sinks_misconfigured syslog from_addr to_addrs = false ->
  truthy from_addr = truthy to_addrs.
Proof.
  unfold sinks_misconfigured.
  destruct syslog, (truthy from_addr), (truthy to_addrs); cbn;
    intros H; try discriminate H; reflexivity.
Qed.

(** With sinks that never raise and a to-list whenever there is a
    from-address, [base_verifier_sender] returns. *)
Lemma base_verifier_sender_returns env new_lines syslog from_addr to_addrs
    regex file_ w :
  env_works env -> truthy from_addr = truthy to_addrs ->
  exists w', base_verifier_sender env new_lines syslog from_addr to_addrs
               regex file_ w = (w', inr tt)
             /\ fs w' = fs w.
Proof.
  intros (Hlog & Hconn & Hsend) Hpair. rewrite base_verifier_sender_eq.
  destruct (matched_lines regex new_lines) as [|kv d]; [now exists w|].
  cbv zeta.
  assert (Hmail : forall w1, exists w',
            (if truthy from_addr
             then send_mail env match from_addr with Some a => a | None => [] end
                    to_addrs (mail_subject regex file_)
                    (mail_body regex file_ (kv :: d))
             else ret tt) w1 = (w', inr tt) /\ fs w' = fs w1).
  { intros w1. destruct (truthy from_addr).
    - destruct to_addrs as [[|a tos]|]; try discriminate Hpair.
      rewrite send_mail_run. cbv zeta. rewrite Hconn, Hsend. eauto.
    - now exists w1. }
  destruct syslog; [|apply Hmail].
  destruct (Hlog (logger_command (syslog_message file_ (kv :: d)))) as (rc & ->).
  destruct (Hmail (add_events w
              [EvLogger (logger_command (syslog_message file_ (kv :: d)))]))
    as (w' & E & Hfs).
  exists w'. split; [exact E | exact Hfs].
Qed.

Lemma watch_loop_growing env file_ regex syslog from_addr to_addrs files :
  env_works env -> truthy from_addr = truthy to_addrs ->
  forall n w,
    strictly_growing n files ->
    snd (watch_loop file_ regex syslog from_addr to_addrs
           (ticks_of env file_ files) (Z.of_nat n) w)
    = inr (Z.of_nat (last (map (@length str) files) n)).
Proof.
  intros Henv Hpair. induction files as [|f files IH]; intros n w Hg.
  - reflexivity.
  - destruct Hg as (Hp & Hn & Hg).
    cbn [ticks_of map]. rewrite watch_loop_step.
    cbn [tick_env tick_inotify tick_writes]. rewrite watch_cycle_eq. cbv zeta.
    set (w1 := fst (apply_writes [(file_, Some f)] w)).
    assert (Hfs : fs w1 file_ = Some f).
    { unfold w1, apply_writes, fs_write. cbn. now rewrite str_eqb_refl. }
    rewrite Hfs. destruct (diff_lines_growth f n Hp Hn) as [_ ->].
    destruct (base_verifier_sender_returns env
                (diff_lines (Some f) (Z.of_nat n)) syslog from_addr to_addrs
                regex file_ w1 Henv Hpair) as (w' & -> & _).
    fold (ticks_of env file_ files). rewrite (IH (length f) w' Hg).
    now rewrite last_cons_default.
Qed.

Lemma watch_loop_no_modify file_ regex syslog from_addr to_addrs ticks :
  forallb no_modify ticks = true ->
  forall line_no w,
    let r := watch_loop file_ regex syslog from_addr to_addrs ticks line_no w in
    snd r = inr line_no /\ events (fst r) = events w
    /\ open_conns (fst r) = open_conns w.
Proof.
  induction ticks as [|t ticks IH]; intros H line_no w; [now repeat split|].
  cbn [forallb] in H. apply andb_true_iff in H as [Ht H].
  cbv zeta. rewrite watch_loop_step.
  rewrite watch_cycle_no_event.
  - apply (IH H line_no (fst (apply_writes (tick_writes t) w))).
  - unfold no_modify in Ht. intros E. rewrite E in Ht. discriminate Ht.
Qed.

End LoopFacts.

Import LoopFacts.

(** X9: wake-ups that are not MODIFY events do nothing: along a schedule
    made of such wake-ups only, whatever is written to the files
    meanwhile, the loop keeps its cursor, calls no sink and does not
    raise. *)
Theorem X9_only_modify_events_count file_ regex syslog from_addr to_addrs
    ticks line_no w :
  forallb no_modify ticks = true ->
  let r := watch_loop file_ regex syslog from_addr to_addrs ticks line_no w in
  snd r = inr line_no /\ events (fst r) = events w
  /\ open_conns (fst r) = open_conns w.
Proof. intros H. now apply watch_loop_no_modify. Qed.

Lemma X9_only_modify_events_count_witness :
  let t := mkTick [(app_log, Some [py "ERROR boom"])] 1 env_no_relay in
  let r := watch_loop app_log re_ERROR true (Some (py "a@x")) (Some [py "b@y"])
             [t; t] 0 (world_of app_log []) in
  forallb no_modify [t; t] = true /\ snd r = inr 0%Z /\ events (fst r) = [].
Proof.
  intros t r. split; [reflexivity|].
  destruct (X9_only_modify_events_count app_log re_ERROR true
              (Some (py "a@x")) (Some [py "b@y"]) [t; t] 0
              (world_of app_log []) eq_refl) as (H1 & H2 & _).
  split; [exact H1 | exact H2].
Defined.

(** X10: with a configuration that passes the checks and sinks that
    never raise, a watcher whose file is replaced again and again by a
    content of plain lines longer, in lines, than the one before never
    stops: after the last change the loop is still running and its
    cursor is the number of lines of the last content. *)
Theorem X10_loop_follows_growth env file_ regex syslog from_addr to_addrs
    files w :
  env_works env ->
  sinks_misconfigured syslog from_addr to_addrs = false ->
  strictly_growing 0 files ->
  snd (base_watcher file_ regex syslog from_addr to_addrs
         (ticks_of env file_ files) w)
  = inr (Z.of_nat (last (map (@length str) files) 0)).
Proof.
  intros Henv Hok Hg. unfold base_watcher, bind, lift.
  rewrite (checks_pass _ _ _ Hok).
  apply (watch_loop_growing env file_ regex syslog from_addr to_addrs files
           Henv (checks_pass_pair _ _ _ Hok) 0 w Hg).
Qed.

Lemma X10_loop_follows_growth_witness :
  let files : list File :=
    [[py "ERROR one"]; [py "ERROR one"; py "two"; py "ERROR three"]] in
  env_works env_logger_fails
  /\ strictly_growing 0 files
  /\ snd (base_watcher app_log re_ERROR true (Some (py "a@x"))
            (Some [py "b@y"]) (ticks_of env_logger_fails app_log files)
            (world_of app_log [])) = inr 3%Z.
Proof.
  intros files.
  assert (He : env_works env_logger_fails).
  { split; [intros c; now exists 1%Z | split; [reflexivity | reflexivity]]. }
  assert (Hg : strictly_growing 0 files).
  { cbn [strictly_growing files]. split; [reflexivity|]. split; [apply le_n|].
    split; [reflexivity|]. split; [apply le_S, le_n | exact I]. }
  split; [exact He|]. split; [exact Hg|].
  exact (X10_loop_follows_growth env_logger_fails app_log re_ERROR true
           (Some (py "a@x")) (Some [py "b@y"]) files (world_of app_log [])
           He eq_refl Hg).
Defined.

(** X11: the checks of [base_watcher] pass exactly when a sink is asked
    for and the from-address and the to-addresses come together.  A
    from-address without to-addresses, or the converse, is refused with
    its own message even when syslog is asked for; nothing at all is
    refused with a third message. *)
Theorem X11_checks syslog from_addr to_addrs :
  (base_watcher_checks syslog from_addr to_addrs = inr true
   <-> (syslog = true \/ truthy from_addr = true)
       /\ truthy from_addr = truthy to_addrs)
  /\ (truthy from_addr = true -> truthy to_addrs = false ->
      base_watcher_checks syslog from_addr to_addrs
      = inl (FileWatcherException (py "No mail send to address(es) specified")))
  /\ (truthy from_addr = false -> truthy to_addrs = true ->
      base_watcher_checks syslog from_addr to_addrs
      = inl (FileWatcherException (py "No mail from address specified")))
  /\ (syslog = false -> truthy from_addr = false -> truthy to_addrs = false ->
      base_watcher_checks syslog from_addr to_addrs
      = inl (FileWatcherException
               (py "No syslog or send mail arguments specified"))).
Proof.
  unfold base_watcher_checks, check_input_combo. cbn [existsb id].
  destruct syslog, (truthy from_addr), (truthy to_addrs); cbn;
    repeat split; intros; try discriminate; try reflexivity;
    try (exfalso; intuition discriminate); intuition.
Qed.

Lemma X11_checks_witness :
  base_watcher_checks true (Some (py "a@x")) None
  = inl (FileWatcherException (py "No mail send to address(es) specified"))
  /\ base_watcher_checks true None (Some [py "b@y"])
     = inl (FileWatcherException (py "No mail from address specified")).
Proof.
  split.
  - exact (proj1 (proj2 (X11_checks true (Some (py "a@x")) None))
             eq_refl eq_refl).
  - exact (proj1 (proj2 (proj2 (X11_checks true None (Some [py "b@y"]))))
             eq_refl eq_refl).
Defined.

Module AppendFacts.
Import PyStrFacts WatcherFacts MatchFacts FileFacts.

Lemma matched_lines_of_tail regex f n :
  plain_file f = true -> n < length f ->
  matched_lines regex (diff_lines (Some f) (Z.of_nat n))
  = flat_map (report regex) (tested_texts (S n) (skipn n f)).
Proof.
  intros Hp Hn. rewrite (diff_lines_records regex f n Hp Hn).
  unfold diff_lines, numbered_tail. rewrite tail_from_nl_ba.
  apply records_splits_as, diff_splits_as.
  - intros E. apply (f_equal (@length _)) in E. rewrite length_skipn in E.
    simpl in E. lia.
  - now apply forallb_skipn, plain_file_nobreak.
Qed.

Lemma skipn_length_app {A} (l1 l2 : list A) : skipn (length l1) (l1 ++ l2) = l2.
Proof. induction l1 as [|x l1 IH]; [reflexivity | exact IH]. Qed.

End AppendFacts.

Import AppendFacts.

Module SyslogFacts.
Import PyStrFacts WatcherFacts SinkFacts CursorFacts.

(** One notified change of the file, for a watcher with syslog only and
    a logger call that returns: the loop goes on with the number of lines
    of the file, having logged the matches of the batch. *)
Lemma syslog_tick env file_ regex f n ticks w :
  (forall c, exists rc, run_logger env c = inr rc) ->
  plain_file f = true -> n < length f ->
  let w' := fst (watch_cycle env file_ regex true None None 0 (Z.of_nat n)
                   (fst (apply_writes [(file_, Some f)] w))) in
  watch_loop file_ regex true None None
    (mkTick [(file_, Some f)] 0 env :: ticks) (Z.of_nat n) w
  = watch_loop file_ regex true None None ticks (Z.of_nat (length f)) w'
  /\ events w'
     = events w
       ++ syslog_events file_
            (matched_lines regex (diff_lines (Some f) (Z.of_nat n))).
Proof.
  intros Hlog Hp Hn. cbv zeta. rewrite watch_loop_step.
  cbn [tick_env tick_inotify tick_writes].
  set (w1 := fst (apply_writes [(file_, Some f)] w)).
  assert (Hfs : fs w1 file_ = Some f).
  { unfold w1, apply_writes, fs_write. cbn. now rewrite str_eqb_refl. }
  assert (Hev : events w1 = events w) by reflexivity.
  rewrite watch_cycle_eq. cbv zeta. rewrite Hfs.
  destruct (diff_lines_growth f n Hp Hn) as [_ ->].
  rewrite base_verifier_sender_eq.
  destruct (matched_lines regex (diff_lines (Some f) (Z.of_nat n))) as [|kv d].
  - cbn [fst syslog_events]. split; [reflexivity|]. now rewrite app_nil_r.
  - cbv zeta. cbn [truthy].
    destruct (Hlog (logger_command (syslog_message file_ (kv :: d))))
      as (rc & ->).
    unfold ret. cbn [fst syslog_events]. split; [reflexivity|].
    unfold add_events. cbn [events]. now rewrite Hev.
Qed.

Lemma plain_file_app_l old new :
  plain_file (old ++ new) = true -> plain_file old = true.
Proof.
  unfold plain_file. rewrite forallb_app. intros H.
  now apply andb_true_iff in H as [H _].
Qed.

End SyslogFacts.

Import SyslogFacts.

(** X13: for a watcher with syslog as its only sink and a logger call
    that returns: once a cycle has read a non-empty batch of a file of
    plain lines, which takes the cursor to the end of the file, lines
    appended to the file make the next cycle log the records of the
    appended lines alone, numbered after the lines already there, in one
    logger call, or none when no appended line matches.  What lies before
    the cursor is not tested or logged again. *)
Theorem X13_only_appended_lines_logged env file_ regex old new n w :
  (forall c, exists rc, run_logger env c = inr rc) ->
  plain_file (old ++ new) = true -> n < length old -> new <> [] ->
  let t1 := mkTick [(file_, Some old)] 0 env in
  let t2 := mkTick [(file_, Some (old ++ new))] 0 env in
  let r1 := watch_loop file_ regex true None None [t1] (Z.of_nat n) w in
  let r2 := watch_loop file_ regex true None None [t1; t2] (Z.of_nat n) w in
  snd r1 = inr (Z.of_nat (length old))
  /\ snd r2 = inr (Z.of_nat (length (old ++ new)))
  /\ events (fst r2)
     = events (fst r1)
       ++ syslog_events file_
            (flat_map (report regex) (tested_texts (S (length old)) new)).
Proof.
  intros Hlog Hp Hn Hnew. cbv zeta.
  pose proof (plain_file_app_l old new Hp) as Hold.
  assert (Hlen : length old < length (old ++ new)).
  { rewrite length_app. destruct new; [congruence | simpl; lia]. }
  destruct (syslog_tick env file_ regex old n [] w Hlog Hold Hn) as [E1 _].
  destruct (syslog_tick env file_ regex old n
              [mkTick [(file_, Some (old ++ new))] 0 env] w Hlog Hold Hn)
    as [E2 _].
  cbv zeta in E1, E2. unfold File in *. rewrite E1, E2.
  set (w1 := fst (watch_cycle env file_ regex true None None 0 (Z.of_nat n)
                    (fst (apply_writes [(file_, Some old)] w)))).
  destruct (syslog_tick env file_ regex (old ++ new) (length old) [] w1
              Hlog Hp Hlen) as [E3 Hev].
  cbv zeta in E3, Hev. unfold File in *. rewrite E3.
  cbn [watch_loop ret fst snd].
  split; [reflexivity|]. split; [reflexivity|].
  rewrite Hev. f_equal. f_equal.
  rewrite matched_lines_of_tail by assumption.
  now rewrite skipn_length_app.
Qed.

Lemma X13_only_appended_lines_logged_witness :
  let old : File := [py "ERROR seen"; py "ERROR seen too"] in
  let new : File := [py "fine"; py "ERROR fresh"] in
  let t1 := mkTick [(app_log, Some old)] 0 env_ok in
  let t2 := mkTick [(app_log, Some (old ++ new))] 0 env_ok in
  let w := world_of app_log [] in
  plain_file (old ++ new) = true /\ 0 < length old /\ new <> []
  /\ events (fst (watch_loop app_log re_ERROR true None None [t1; t2]
                    (Z.of_nat 0) w))
     = events (fst (watch_loop app_log re_ERROR true None None [t1]
                      (Z.of_nat 0) w))
       ++ syslog_events app_log [(py "4", py "ERROR fresh")].
Proof.
  intros old new t1 t2 w.
  assert (Hn : 0 < length old) by apply le_S, le_n.
  assert (Hnew : new <> []) by discriminate.
  split; [reflexivity|]. split; [exact Hn|]. split; [exact Hnew|].
  exact (proj2 (proj2 (X13_only_appended_lines_logged env_ok app_log re_ERROR
                         old new 0 w (fun c => ex_intro _ 0%Z eq_refl)
                         eq_refl Hn Hnew))).
Defined.
